(** * primeutil: a shallow embedding of [index.js]

    The module keeps one shared array, [sieve], and offers [getSieve],
    [getLabeledSieve], [listprimes], [isPrime] and [nearestPrime] on top of it.

    How the JavaScript is read.

    - The file spells the header of the sieve loop
      [for ( var prime = 0, prime <= length, i++)] and the declaration of
      [isPrime] as [fuction isPrime].  They are read with the least change of
      tokens that gives a program: [;] for the two commas of the header and
      [function] for [fuction].  Nothing else is altered: the loop variable is
      [prime], its bound is the identifier [length], and its update is [i++].
    - [length], [i] and (in [listprimes]) [num] are bound by no declaration of
      the file.  Their bindings come from the host's global scope and are
      fields of the state: [None] is an unresolvable reference, whose
      evaluation throws [ReferenceError]; under Node's CommonJS loader, for
      which the file is written ([module.exports]), all three are unbound.
    - Arrays are objects: the state holds a heap of arrays, the shared sieve
      sits at [sieve_ref], and [slice], [map] and [filter] allocate.  A slot of
      an array is [None] when it is a hole.
    - Numbers are integers, with the two infinities and [NaN] where
      [nearestPrime] needs them, and a binding of [length], [i] or [num] is
      an integer.  The limits of the engine are not modelled: neither 2^53
      nor the [RangeError] with which [new Array(k)] and
      [sieve.push(...freshSieve)] refuse a large [k].
    - [nearestPrime] assigns [nextPrime] and [prevPrime] without declaring
      them.  The state has no field for these two globals: what is said of
      the state after a call of [nearestPrime] is said of the table, the
      heap and the three bindings above.
    - [module.exports] is an object literal of shorthand properties, each
      reading the identifier of its name.  [listPrimes] is bound by no
      declaration (the function is [listprimes]): [module_exports]
      evaluates the literal, and every function is modelled as declared.
    - Loops take fuel; [Timeout] is the outcome of a run that needs more. *)

From Stdlib Require Import ZArith Lia Ascii String Sorted.
From stdpp Require Import base tactics option list.

Local Open Scope Z_scope.

(** ** Values *)

Inductive number : Type :=
| Fin (z : Z)
| PosInf
| NegInf
| NaN.

Inductive value : Type :=
| VUndef
| VBool (b : bool)
| VNum (n : number)
| VLabel (k : Z) (v : value).   (* the object literal {[k]: v} *)

(** An array: its slots in order, [None] for a hole. *)
Abbreviation array := (list (option value)).

Definition loc : Type := nat.

Inductive error : Type :=
| ReferenceError (x : string).

(** ** The state: the heap and the host's bindings of the free identifiers *)

Record state : Type := mkState {
  sieve : array;            (* the array object bound to [const sieve] *)
  objs : list array;        (* every other array object, by allocation order *)
  g_length : option Z;      (* the free identifier [length] *)
  g_i : option Z;           (* the free identifier [i] *)
  g_num : option Z          (* the free identifier [num] of [listprimes] *)
}.

Definition sieve_ref : loc := 0%nat.

Definition deref (s : state) (l : loc) : option array :=
  match l with
  | O => Some (sieve s)
  | S k => objs s !! k
  end.

Definition set_sieve (a : array) (s : state) : state :=
  mkState a (objs s) (g_length s) (g_i s) (g_num s).

Definition set_objs (o : list array) (s : state) : state :=
  mkState (sieve s) o (g_length s) (g_i s) (g_num s).

Definition set_i (i : option Z) (s : state) : state :=
  mkState (sieve s) (objs s) (g_length s) i (g_num s).

(** Overwriting the array object at [l] with [a]: every mutation a holder of
    the reference [l] can perform (element writes, push, pop, length). *)
Definition write_ref (l : loc) (a : array) (s : state) : state :=
  match l with
  | O => set_sieve a s
  | S k => set_objs (<[k := a]> (objs s)) s
  end.

(** The state of a freshly loaded module under a host with the given
    bindings, and under Node. *)
Definition init (gl gi gn : option Z) : state := mkState [] [] gl gi gn.
Definition node_init : state := init None None None.

(** ** Outcomes *)

Inductive outcome (A : Type) : Type :=
| Ret (a : A) (s : state)
| Throw (e : error) (s : state)
| Timeout.
Arguments Ret {A} a s.
Arguments Throw {A} e s.
Arguments Timeout {A}.

Definition M (A : Type) : Type := state -> outcome A.

Definition ret {A} (a : A) : M A := fun s => Ret a s.

Definition bind {A B} (m : M A) (f : A -> M B) : M B := fun s =>
  match m s with
  | Ret a s' => f a s'
  | Throw e s' => Throw e s'
  | Timeout => Timeout
  end.

Notation "'let*' x := m 'in' k" := (bind m (fun x => k))
  (at level 10, x name, m at level 100, k at level 200).

Definition final {A} (o : outcome A) : option state :=
  match o with
  | Ret _ s => Some s
  | Throw _ s => Some s
  | Timeout => None
  end.

(** ** Array primitives *)

Definition alloc (a : array) : M loc := fun s =>
  Ret (S (length (objs s))) (set_objs (objs s ++ [a]) s).

(** [a[k]]: [undefined] off the array and on a hole. *)
Definition get (a : array) (k : Z) : value :=
  if k <? 0 then VUndef
  else match a !! Z.to_nat k with
       | Some (Some v) => v
       | _ => VUndef
       end.

(** [a[k] = v]: past the end the array grows, the gap left as holes; a
    negative [k] names a property, not a slot. *)
Definition store (a : array) (k : Z) (v : value) : array :=
  if k <? 0 then a
  else if (Z.to_nat k <? length a)%nat then <[Z.to_nat k := Some v]> a
  else a ++ replicate (Z.to_nat k - length a)%nat None ++ [Some v].

(** [a.slice(0, e)]: a negative [e] counts from the end. *)
Definition slice0 (a : array) (e : Z) : array :=
  if e <? 0 then take (Z.to_nat (Z.of_nat (length a) + e)) a
  else take (Z.to_nat e) a.

(** [a.map(f)], [f] given the element and its index; holes stay holes. *)
Fixpoint mapi_from (f : value -> Z -> value) (i : Z) (a : array) : array :=
  match a with
  | [] => []
  | None :: r => None :: mapi_from f (i + 1) r
  | Some v :: r => Some (f v i) :: mapi_from f (i + 1) r
  end.
Definition js_map (f : value -> Z -> value) (a : array) : array :=
  mapi_from f 0 a.

Definition truthy_num (n : number) : bool :=
  match n with
  | Fin z => negb (z =? 0)
  | PosInf | NegInf => true
  | NaN => false
  end.

Definition truthy (v : value) : bool :=
  match v with
  | VUndef => false
  | VBool b => b
  | VNum n => truthy_num n
  | VLabel _ _ => true
  end.

(** [a.filter(Boolean)]: holes are skipped. *)
Fixpoint filter_Boolean (a : array) : array :=
  match a with
  | [] => []
  | None :: r => filter_Boolean r
  | Some v :: r => if truthy v then Some v :: filter_Boolean r else filter_Boolean r
  end.

(** [new Array(k).join(',')]: [k] holes, each printed as the empty string. *)
Fixpoint join_holes (k : nat) : string :=
  match k with
  | O => EmptyString
  | S O => EmptyString
  | S k' => String "," (join_holes k')
  end.

(** [str.split(',')] *)
Fixpoint split_comma (str : string) : list string :=
  match str with
  | EmptyString => [EmptyString]
  | String c r =>
      if Ascii.eqb c "," then EmptyString :: split_comma r
      else match split_comma r with
           | x :: xs => String c x :: xs
           | [] => [String c EmptyString]
           end
  end.

(** [new Array(k).join(',').split(',').map(() => true)] *)
Definition freshSieve (k : nat) : array :=
  map (fun _ => Some (VBool true)) (split_comma (join_holes k)).

(** ** getSieve *)

Definition lookup_global (x : string) (g : state -> option Z) : M Z := fun s =>
  match g s with
  | Some z => Ret z s
  | None => Throw (ReferenceError x) s
  end.

(** [for (var multiple = prime * prime; multiple < length; multiple += prime)
      sieve[multiple] = false] *)
Fixpoint mark_multiples (fuel : nat) (prime multiple : Z) : M unit :=
  match fuel with
  | O => fun _ => Timeout
  | S f =>
      let* len := lookup_global "length" g_length in
      if multiple <? len then
        fun s => mark_multiples f prime (multiple + prime)
                   (set_sieve (store (sieve s) multiple (VBool false)) s)
      else ret tt
  end.

(** [i++] *)
Definition incr_i : M unit :=
  let* i := lookup_global "i" g_i in
  fun s => Ret tt (set_i (Some (i + 1)) s).

(** [for (var prime = 0; prime <= length; i++) { if (sieve[prime]) ... }]:
    [fuel] bounds the passes of this loop, [ifuel] those of the inner one. *)
Fixpoint sieve_loop (fuel ifuel : nat) (prime : Z) : M unit :=
  match fuel with
  | O => fun _ => Timeout
  | S f =>
      let* len := lookup_global "length" g_length in
      if prime <=? len then
        let* _ := (fun s => if truthy (get (sieve s) prime)
                            then mark_multiples ifuel prime (prime * prime) s
                            else Ret tt s) in
        let* _ := incr_i in
        sieve_loop f ifuel prime
      else ret tt
  end.

Definition getSieve (fuel : nat) (max : Z) : M loc := fun s =>
  if Z.of_nat (length (sieve s)) >=? max then
    alloc (slice0 (sieve s) max) s
  else
    let fresh := freshSieve (Z.to_nat (max - Z.of_nat (length (sieve s)))) in
    let s1 := set_sieve (sieve s ++ fresh) s in
    (let* _ := sieve_loop fuel fuel 0 in
     fun s2 => alloc (slice0 (sieve s2) max) s2) s1.

(** ** getLabeledSieve, listprimes, isPrime *)

Definition deref_or_empty (s : state) (l : loc) : array :=
  match deref s l with
  | Some a => a
  | None => []
  end.

(** [getSieve(num).map((each, index) => ({[index]: each}))] *)
Definition getLabeledSieve (fuel : nat) (num : Z) : M loc :=
  let* l := getSieve fuel num in
  fun s => alloc (js_map (fun each index => VLabel index each) (deref_or_empty s l)) s.

(** [each && index] *)
Definition and_index (each : value) (index : Z) : value :=
  if truthy each then VNum (Fin index) else each.

(** [function listprimes(max)]: the body reads [num], not [max]. *)
Definition listprimes (fuel : nat) (max : Z) : M loc :=
  let* num := lookup_global "num" g_num in
  let* l := getSieve fuel num in
  let* m := (fun s => alloc (js_map and_index (deref_or_empty s l)) s) in
  fun s => alloc (filter_Boolean (deref_or_empty s m)) s.

Definition isPrime (fuel : nat) (num : Z) : M value := fun s =>
  if Z.of_nat (length (sieve s)) >=? num then
    Ret (get (sieve s) num) s
  else
    (let* l := getSieve fuel num in
     fun s' => Ret (get (deref_or_empty s' l) num) s') s.

(** ** nearestPrime *)

(** [a < b] on numbers; every comparison with [NaN] is false. *)
Definition lt_num (a b : number) : bool :=
  match a, b with
  | Fin x, Fin y => x <? y
  | Fin _, PosInf => true
  | NegInf, Fin _ => true
  | NegInf, PosInf => true
  | _, _ => false
  end.

Definition gt_num (a b : number) : bool := lt_num b a.

(** [a - b] *)
Definition sub_num (a b : number) : number :=
  match a, b with
  | Fin x, Fin y => Fin (x - y)
  | NaN, _ | _, NaN => NaN
  | PosInf, PosInf | NegInf, NegInf => NaN
  | PosInf, _ | _, NegInf => PosInf
  | NegInf, _ | _, PosInf => NegInf
  end.

(** [v == false]: only [false] and the number zero are loosely equal to
    [false]; [undefined] is not. *)
Definition loose_eq_false (v : value) : bool :=
  match v with
  | VBool b => negb b
  | VNum (Fin z) => z =? 0
  | _ => false
  end.

(** [while (nextPrime < max && isPrime(nextPrime) == false) { nextPrime++ }] *)
Fixpoint scan_up (fuel ifuel : nat) (max : number) (nextPrime : Z) : M Z :=
  match fuel with
  | O => fun _ => Timeout
  | S f =>
      if lt_num (Fin nextPrime) max then
        let* p := isPrime ifuel nextPrime in
        if loose_eq_false p then scan_up f ifuel max (nextPrime + 1)
        else ret nextPrime
      else ret nextPrime
  end.

(** [while (prevPrime > min && isPrime(prevPrime) == false) { prevPrime-- }] *)
Fixpoint scan_down (fuel ifuel : nat) (min : number) (prevPrime : Z) : M Z :=
  match fuel with
  | O => fun _ => Timeout
  | S f =>
      if gt_num (Fin prevPrime) min then
        let* p := isPrime ifuel prevPrime in
        if loose_eq_false p then scan_down f ifuel min (prevPrime - 1)
        else ret prevPrime
      else ret prevPrime
  end.

(** The conditional expression that [nearestPrime] returns. *)
Definition choose (num nextPrime prevPrime : number) : number :=
  if truthy_num prevPrime && negb (truthy_num nextPrime) then prevPrime
  else if truthy_num nextPrime && negb (truthy_num prevPrime) then nextPrime
  else if negb (truthy_num nextPrime) && negb (truthy_num prevPrime) then NaN
  else if gt_num (sub_num nextPrime num) (sub_num num prevPrime) then nextPrime
  else prevPrime.

(** [nextPrime] and [prevPrime] are assigned without a declaration; no other
    function reads them, so they are threaded as the values of the call. *)
Definition nearestPrime (fuel : nat) (num : Z) (min max : number) : M number :=
  let* p := isPrime fuel num in
  if truthy p then ret (Fin num)
  else
    let* nextPrime := scan_up fuel fuel max num in
    let* prevPrime := scan_down fuel fuel min num in
    (* if(nextPrime > max) prevPrime = NaN *)
    let prevPrime1 := if gt_num (Fin nextPrime) max then NaN else Fin prevPrime in
    (* if(prevPrime < min) prevPrime = NaN *)
    let prevPrime2 := if lt_num prevPrime1 min then NaN else prevPrime1 in
    ret (choose (Fin num) (Fin nextPrime) prevPrime2).

(** [nearestPrime(num)]: the defaults [min = -Infinity], [max = Infinity]. *)
Definition nearestPrime_default (fuel : nat) (num : Z) : M number :=
  nearestPrime fuel num NegInf PosInf.

(** ** The module's surface *)

(** The function declarations of the file, by name. *)
Definition declared : list string :=
  ["getSieve"; "getLabeledSieve"; "listprimes"; "isPrime"; "nearestPrime"]%string.

(** [module.exports = {getSieve, getLabeledSieve, listPrimes, nearestPrime}]:
    the shorthand properties of the literal, in order. *)
Definition export_literal : list string :=
  ["getSieve"; "getLabeledSieve"; "listPrimes"; "nearestPrime"]%string.

(** Evaluating the literal under Node: a shorthand property reads the
    identifier of its name, which function declarations bind (they are
    hoisted) and nothing else does; an unbound one throws, and no object is
    made. *)
Fixpoint eval_shorthand (names : list string) : error + list string :=
  match names with
  | [] => inr []
  | x :: r =>
      if existsb (String.eqb x) declared then
        match eval_shorthand r with
        | inr l => inr (x :: l)
        | inl e => inl e
        end
      else inl (ReferenceError x)
  end.

Definition module_exports : error + list string :=
  eval_shorthand export_literal.

(** ** Runs of the module *)

Inductive call : Type :=
| CgetSieve (max : Z)
| CgetLabeledSieve (num : Z)
| Clistprimes (max : Z)
| CisPrime (num : Z)
| CnearestPrime (num : Z) (min max : number).

(** The state a call ends in, when it ends: by a return or by a throw. *)
Definition run (fuel : nat) (c : call) (s : state) : option state :=
  match c with
  | CgetSieve max => final (getSieve fuel max s)
  | CgetLabeledSieve n => final (getLabeledSieve fuel n s)
  | Clistprimes max => final (listprimes fuel max s)
  | CisPrime n => final (isPrime fuel n s)
  | CnearestPrime n min max => final (nearestPrime fuel n min max s)
  end.

(** One step of a client: a call that ends, or a mutation of an array the
    module handed out (the sieve's own reference is never handed out). *)
Inductive step : state -> state -> Prop :=
| step_call fuel c s s' : run fuel c s = Some s' -> step s s'
| step_write k a s : (k < length (objs s))%nat -> step s (write_ref (S k) a s).

Inductive steps : state -> state -> Prop :=
| steps_refl s : steps s s
| steps_next s1 s2 s3 : steps s1 s2 -> step s2 s3 -> steps s1 s3.

Definition reachable (s : state) : Prop :=
  exists gl gi gn, steps (init gl gi gn) s.

(** A table as the sieve of Eratosthenes would leave it, for the examples:
    the flags of 0..12. *)
Definition flags (l : list bool) : array := map (fun b => Some (VBool b)) l.
Definition sieved13 : state :=
  mkState (flags [false; false; true; true; false; true; false; true;
                  false; false; false; true; false]) [] None None None.

(** ** Vocabulary of the statements *)

Definition true_slot : option value := Some (VBool true).

(** What a call of [getSieve] makes of the table: the old slots, then
    [true] up to [max]. *)
Definition grow (a : array) (max : Z) : array :=
  a ++ replicate (Z.to_nat (max - Z.of_nat (length a))) true_slot.

(** Every way the loop of [getSieve] can end. *)
Inductive loop_end (s : state) : outcome unit -> Prop :=
| loop_timeout : loop_end s Timeout
| loop_unbound_length :
    g_length s = None -> loop_end s (Throw (ReferenceError "length") s)
| loop_unbound_i len :
    g_length s = Some len -> 0 <= len -> g_i s = None ->
    loop_end s (Throw (ReferenceError "i") s)
| loop_skipped len :
    g_length s = Some len -> len < 0 -> loop_end s (Ret tt s).

Definition grown (max : Z) (s : state) : state :=
  set_sieve (grow (sieve s) max) s.

Definition copied (max : Z) (s : state) : state :=
  set_objs (objs s ++ [slice0 (sieve s) max]) s.

(** Every way a call of [getSieve] can end: the table has grown to [max] by
    slots holding [true], and a return hands out a fresh array. *)
Inductive getSieve_end (max : Z) (s : state) : outcome loc -> Prop :=
| gs_timeout :
    Z.of_nat (length (sieve s)) < max -> getSieve_end max s Timeout
| gs_throw e :
    Z.of_nat (length (sieve s)) < max ->
    getSieve_end max s (Throw e (grown max s))
| gs_ret :
    getSieve_end max s
      (Ret (S (length (objs s))) (copied max (grown max s))).

Inductive isPrime_end (num : Z) (s : state) : outcome value -> Prop :=
| ip_known :
    num <= Z.of_nat (length (sieve s)) ->
    isPrime_end num s (Ret (get (sieve s) num) s)
| ip_timeout :
    Z.of_nat (length (sieve s)) < num -> isPrime_end num s Timeout
| ip_throw e :
    Z.of_nat (length (sieve s)) < num ->
    isPrime_end num s (Throw e (grown num s))
| ip_undef :
    Z.of_nat (length (sieve s)) < num ->
    isPrime_end num s (Ret VUndef (copied num (grown num s))).

Definition extends (s s' : state) : Prop :=
  exists n, sieve s' = sieve s ++ replicate n true_slot.

Definition preserves {A} (m : M A) : Prop :=
  forall s s', final (m s) = Some s' -> extends s s'.

Definition trues (n : nat) : array := replicate n true_slot.

(** A Node state whose table is [a] and whose heap holds the arrays [o]. *)
Definition node_state (a : array) (o : list array) : state :=
  mkState a o None None None.

Definition returns_true (o : outcome value) : bool :=
  match o with
  | Ret (VBool true) _ => true
  | _ => false
  end.

Definition returns_NaN (o : outcome number) : bool :=
  match o with
  | Ret NaN _ => true
  | _ => false
  end.

Definition returns_num (z : Z) (o : outcome number) : bool :=
  match o with
  | Ret (Fin x) _ => x =? z
  | _ => false
  end.

(** Whether the slot [x] at index [i] survives [each && index] and
    [filter(Boolean)]. *)
Definition listed_slot (x : option value) (i : Z) : bool :=
  match x with
  | Some v => truthy v && negb (i =? 0)
  | None => false
  end.

Fixpoint listed_from (i : Z) (a : array) : list Z :=
  match a with
  | [] => []
  | x :: r => if listed_slot x i then i :: listed_from (i + 1) r
              else listed_from (i + 1) r
  end.

Definition num_slot (z : Z) : option value := Some (VNum (Fin z)).

Definition map_final (W : state -> state) {A} (o : outcome A) : outcome A :=
  match o with
  | Ret a s => Ret a (W s)
  | Throw e s => Throw e (W s)
  | Timeout => Timeout
  end.

(** What a client sees of a call: the returned value, an array by its
    contents. *)
Inductive seen : Type :=
| SeenArray (a : option array)
| SeenValue (v : value)
| SeenNumber (n : number)
| SeenThrow (e : error)
| SeenTimeout.

Definition see_ref (o : outcome loc) : seen :=
  match o with
  | Ret l s => SeenArray (deref s l)
  | Throw e _ => SeenThrow e
  | Timeout => SeenTimeout
  end.

Definition see_value (o : outcome value) : seen :=
  match o with
  | Ret v _ => SeenValue v
  | Throw e _ => SeenThrow e
  | Timeout => SeenTimeout
  end.

Definition see_number (o : outcome number) : seen :=
  match o with
  | Ret n _ => SeenNumber n
  | Throw e _ => SeenThrow e
  | Timeout => SeenTimeout
  end.

Definition observe (fuel : nat) (c : call) (s : state) : seen :=
  match c with
  | CgetSieve max => see_ref (getSieve fuel max s)
  | CgetLabeledSieve n => see_ref (getLabeledSieve fuel n s)
  | Clistprimes max => see_ref (listprimes fuel max s)
  | CisPrime n => see_value (isPrime fuel n s)
  | CnearestPrime n min max => see_number (nearestPrime fuel n min max s)
  end.

(** A sequence of calls, each with its fuel, run one after the other; [None]
    when one of them does not end. *)
Fixpoint run_all (cs : list (nat * call)) (s : state) : option state :=
  match cs with
  | [] => Some s
  | (fuel, c) :: r =>
      match run fuel c s with
      | Some s1 => run_all r s1
      | None => None
      end
  end.

(** The arrays already on the heap are still there, as they were. *)
Definition keeps_objs {A} (m : M A) : Prop :=
  forall s s', final (m s) = Some s' -> objs s `prefix_of` objs s'.

(** [z] lies within the bounds [min] and [max]. *)
Definition within (min max : number) (z : Z) : Prop :=
  lt_num (Fin z) min = false /\ gt_num (Fin z) max = false.

(** Whether a call has returned. *)
Definition returns {A} (o : outcome A) : bool :=
  match o with
  | Ret _ _ => true
  | _ => false
  end.

(** What a client does: a call, or a write into an array it was handed. *)
Inductive event : Type :=
| ECall (fuel : nat) (c : call)
| EWrite (k : nat) (b : array).

Fixpoint calls_only (es : list event) : list event :=
  match es with
  | [] => []
  | ECall fuel c :: r => ECall fuel c :: calls_only r
  | EWrite _ _ :: r => calls_only r
  end.

(** What the calls of a client show, one after the other: what each call
    lets the client see, and the table as the call leaves it. *)
Fixpoint observe_trace (es : list event) (s : state)
  : list (seen * option array) :=
  match es with
  | [] => []
  | ECall fuel c :: r =>
      (observe fuel c s, sieve <$> run fuel c s) ::
      match run fuel c s with
      | Some s' => observe_trace r s'
      | None => []
      end
  | EWrite k b :: r => observe_trace r (write_ref (S k) b s)
  end.

(** * Properties *)

(** ** The fill and the sieve loop *)

Lemma split_join_holes (k : nat) :
  split_comma (join_holes (S k)) = replicate (S k) EmptyString.
Proof.
  induction k as [|k IH]; [reflexivity|].
  change (join_holes (S (S k))) with (String "," (join_holes (S k))).
  cbn [split_comma]. rewrite IH. reflexivity.
Qed.

Lemma freshSieve_replicate (k : nat) :
  (1 <= k)%nat -> freshSieve k = replicate k true_slot.
Proof.
  destruct k as [|k]; [lia|]. intros _. unfold freshSieve.
  rewrite split_join_holes. generalize (S k). intros n.
  induction n as [|n IH]; [reflexivity|]. cbn. f_equal. exact IH.
Qed.

Lemma grow_id a max : max <= Z.of_nat (length a) -> grow a max = a.
Proof.
  intros H. unfold grow. replace (Z.to_nat _) with O by lia.
  cbn. apply app_nil_r.
Qed.

Lemma length_grow a max :
  Z.of_nat (length (grow a max)) = Z.max (Z.of_nat (length a)) max.
Proof. unfold grow. rewrite length_app, length_replicate. lia. Qed.

(** With [prime = 0] the inner loop, once entered, never leaves: [multiple]
    stays 0. *)
Lemma mark_multiples_diverges fuel s len :
  g_length s = Some len -> 0 < len -> mark_multiples fuel 0 0 s = Timeout.
Proof.
  revert s. induction fuel as [|f IH]; intros s Hl Hpos; [reflexivity|].
  cbn [mark_multiples]. unfold bind, lookup_global. rewrite Hl.
  destruct (0 <? len) eqn:E; [|lia].
  change (0 + 0) with 0. apply IH; [exact Hl | exact Hpos].
Qed.

Lemma mark_multiples_skip fuel s len :
  g_length s = Some len -> len <= 0 ->
  mark_multiples (S fuel) 0 0 s = Ret tt s.
Proof.
  intros Hl Hle. cbn [mark_multiples]. unfold bind, lookup_global. rewrite Hl.
  destruct (0 <? len) eqn:E; [lia | reflexivity].
Qed.

(** The outer loop never advances [prime]: when its guard holds and [i] is
    bound, it runs for ever. *)
Lemma sieve_loop_diverges fuel ifuel s len i :
  g_length s = Some len -> 0 <= len -> g_i s = Some i ->
  sieve_loop fuel ifuel 0 s = Timeout.
Proof.
  revert s i. induction fuel as [|f IH]; intros s i Hl Hle Hi; [reflexivity|].
  cbn [sieve_loop]. unfold bind at 1. unfold lookup_global at 1. rewrite Hl.
  destruct (0 <=? len) eqn:E; [|lia].
  unfold bind at 1. change (0 * 0) with 0.
  destruct (truthy (get (sieve s) 0)).
  - destruct (Z.eq_dec len 0) as [->|Hne].
    + destruct ifuel as [|fi]; [reflexivity|].
      rewrite (mark_multiples_skip fi s 0 Hl) by lia. cbv beta iota.
      unfold incr_i, bind, lookup_global. rewrite Hi.
      apply (IH _ (i + 1)); [exact Hl | lia | reflexivity].
    + rewrite (mark_multiples_diverges ifuel s len Hl) by lia. reflexivity.
  - cbv beta iota. unfold incr_i, bind, lookup_global. rewrite Hi.
    apply (IH _ (i + 1)); [exact Hl | lia | reflexivity].
Qed.

Lemma sieve_loop_end fuel ifuel s : loop_end s (sieve_loop fuel ifuel 0 s).
Proof.
  destruct fuel as [|f]; [constructor|].
  destruct (g_length s) as [len|] eqn:Hl.
  2:{ cbn [sieve_loop]. unfold bind, lookup_global. rewrite Hl.
      constructor. exact Hl. }
  destruct (Z_lt_le_dec len 0) as [Hneg|Hnn].
  { cbn [sieve_loop]. unfold bind, lookup_global. rewrite Hl.
    destruct (0 <=? len) eqn:E; [lia|]. econstructor 4; eauto. }
  destruct (g_i s) as [i|] eqn:Hi.
  { rewrite (sieve_loop_diverges (S f) ifuel s len i Hl Hnn Hi). constructor. }
  cbn [sieve_loop]. unfold bind at 1. unfold lookup_global at 1. rewrite Hl.
  destruct (0 <=? len) eqn:E; [|lia].
  unfold bind at 1. change (0 * 0) with 0.
  assert (Hthrow : bind incr_i (fun _ => sieve_loop f ifuel 0) s
                   = Throw (ReferenceError "i") s).
  { unfold incr_i, bind, lookup_global. rewrite Hi. reflexivity. }
  destruct (truthy (get (sieve s) 0)).
  - destruct (Z.eq_dec len 0) as [->|Hne].
    + destruct ifuel as [|fi]; [constructor|].
      rewrite (mark_multiples_skip fi s 0 Hl) by lia. cbv beta iota.
      rewrite Hthrow. econstructor 3; eauto.
    + rewrite (mark_multiples_diverges ifuel s len Hl) by lia. constructor.
  - cbv beta iota. rewrite Hthrow. econstructor 3; eauto.
Qed.

Lemma sieve_loop_skipped fuel ifuel s len :
  g_length s = Some len -> len < 0 -> sieve_loop (S fuel) ifuel 0 s = Ret tt s.
Proof.
  intros Hl Hneg. cbn [sieve_loop]. unfold bind, lookup_global. rewrite Hl.
  destruct (0 <=? len) eqn:E; [lia | reflexivity].
Qed.

(** ** getSieve *)

Lemma grown_id max s : max <= Z.of_nat (length (sieve s)) -> grown max s = s.
Proof.
  intros H. unfold grown, set_sieve. rewrite grow_id by exact H.
  destruct s; reflexivity.
Qed.

Lemma deref_copied max s :
  deref (copied max s) (S (length (objs s))) = Some (slice0 (sieve s) max).
Proof.
  cbn. rewrite lookup_app_r by lia. rewrite Nat.sub_diag. reflexivity.
Qed.

Lemma deref_copied_grown max s :
  deref (copied max (grown max s)) (S (length (objs s)))
  = Some (slice0 (grow (sieve s) max) max).
Proof. exact (deref_copied max (grown max s)). Qed.

Lemma length_slice0 a e :
  0 <= e <= Z.of_nat (length a) -> length (slice0 a e) = Z.to_nat e.
Proof.
  intros H. unfold slice0. destruct (e <? 0) eqn:E; [lia|].
  rewrite length_take. lia.
Qed.

Lemma getSieve_known fuel max s :
  max <= Z.of_nat (length (sieve s)) ->
  getSieve fuel max s = Ret (S (length (objs s))) (copied max s).
Proof.
  intros H. unfold getSieve.
  destruct (Z.of_nat (length (sieve s)) >=? max) eqn:E; [reflexivity | lia].
Qed.

Lemma getSieve_grows fuel max s :
  Z.of_nat (length (sieve s)) < max ->
  getSieve fuel max s =
  match sieve_loop fuel fuel 0 (grown max s) with
  | Ret _ s2 => Ret (S (length (objs s2))) (copied max s2)
  | Throw e s2 => Throw e s2
  | Timeout => Timeout
  end.
Proof.
  intros H. unfold getSieve.
  destruct (Z.of_nat (length (sieve s)) >=? max) eqn:E; [lia|].
  rewrite freshSieve_replicate by lia. reflexivity.
Qed.

Lemma getSieve_end_spec fuel max s : getSieve_end max s (getSieve fuel max s).
Proof.
  destruct (Z_lt_le_dec (Z.of_nat (length (sieve s))) max) as [Hlt|Hge].
  - rewrite getSieve_grows by exact Hlt.
    destruct (sieve_loop_end fuel fuel (grown max s));
      try (constructor; exact Hlt).
    exact (gs_ret max s).
  - rewrite getSieve_known by exact Hge.
    pose proof (gs_ret max s) as G.
    rewrite (grown_id max s Hge) in G. exact G.
Qed.

(** A call that returns with some fuel returns the same with any fuel. *)
Lemma getSieve_ret_fuel fuel fuel' max s l s' :
  getSieve fuel max s = Ret l s' -> (1 <= fuel')%nat ->
  getSieve fuel' max s = Ret l s'.
Proof.
  intros H Hf.
  destruct (Z_lt_le_dec (Z.of_nat (length (sieve s))) max) as [Hlt|Hge].
  - rewrite getSieve_grows in * by exact Hlt.
    destruct (sieve_loop_end fuel fuel (grown max s)) as [| | |len Hl Hneg];
      try discriminate.
    destruct fuel' as [|f']; [lia|].
    rewrite (sieve_loop_skipped f' (S f') _ len Hl Hneg). exact H.
  - rewrite getSieve_known in * by exact Hge. exact H.
Qed.

(** ** isPrime *)

Lemma isPrime_known fuel num s :
  num <= Z.of_nat (length (sieve s)) ->
  isPrime fuel num s = Ret (get (sieve s) num) s.
Proof.
  intros H. unfold isPrime.
  destruct (Z.of_nat (length (sieve s)) >=? num) eqn:E; [reflexivity | lia].
Qed.

Lemma isPrime_grows fuel num s :
  Z.of_nat (length (sieve s)) < num ->
  isPrime fuel num s =
  match getSieve fuel num s with
  | Ret l s' => Ret (get (deref_or_empty s' l) num) s'
  | Throw e s' => Throw e s'
  | Timeout => Timeout
  end.
Proof.
  intros H. unfold isPrime.
  destruct (Z.of_nat (length (sieve s)) >=? num) eqn:E; [lia | reflexivity].
Qed.

(** One past the end: a copy of [num] slots has no slot [num]. *)
Lemma get_slice0_end a num :
  0 <= num <= Z.of_nat (length a) -> get (slice0 a num) num = VUndef.
Proof.
  intros H. unfold get. destruct (num <? 0) eqn:E; [reflexivity|].
  rewrite lookup_ge_None_2; [reflexivity|].
  rewrite length_slice0 by exact H. lia.
Qed.

Lemma get_end a : get a (Z.of_nat (length a)) = VUndef.
Proof.
  unfold get. destruct (Z.of_nat (length a) <? 0) eqn:E; [reflexivity|].
  rewrite lookup_ge_None_2; [reflexivity | lia].
Qed.

Lemma isPrime_end_spec fuel num s : isPrime_end num s (isPrime fuel num s).
Proof.
  destruct (Z_lt_le_dec (Z.of_nat (length (sieve s))) num) as [Hlt|Hge].
  - rewrite isPrime_grows by exact Hlt.
    destruct (getSieve_end_spec fuel num s); try (constructor; exact Hlt).
    unfold deref_or_empty. rewrite deref_copied_grown.
    rewrite get_slice0_end; [apply ip_undef; exact Hlt|].
    pose proof (length_grow (sieve s) num). lia.
  - rewrite isPrime_known by exact Hge. apply ip_known. exact Hge.
Qed.

Lemma isPrime_ret_fuel fuel fuel' num s v s' :
  isPrime fuel num s = Ret v s' -> (1 <= fuel')%nat ->
  isPrime fuel' num s = Ret v s'.
Proof.
  intros H Hf.
  destruct (Z_lt_le_dec (Z.of_nat (length (sieve s))) num) as [Hlt|Hge].
  - rewrite isPrime_grows in * by exact Hlt.
    destruct (getSieve fuel num s) as [l s1| |] eqn:E; try discriminate.
    rewrite (getSieve_ret_fuel fuel fuel' num s l s1 E Hf). exact H.
  - rewrite isPrime_known in * by exact Hge. exact H.
Qed.

(** ** The bodies, unfolded *)

Lemma sieve_loop_S fuel ifuel prime s :
  sieve_loop (S fuel) ifuel prime s =
  match g_length s with
  | None => Throw (ReferenceError "length") s
  | Some len =>
      if prime <=? len then
        match (if truthy (get (sieve s) prime)
               then mark_multiples ifuel prime (prime * prime) s
               else Ret tt s) with
        | Ret _ s1 =>
            match g_i s1 with
            | None => Throw (ReferenceError "i") s1
            | Some i => sieve_loop fuel ifuel prime (set_i (Some (i + 1)) s1)
            end
        | Throw e s1 => Throw e s1
        | Timeout => Timeout
        end
      else Ret tt s
  end.
Proof.
  cbn [sieve_loop]. unfold incr_i, bind, lookup_global.
  destruct (g_length s); [|reflexivity].
  destruct (prime <=? _); [|reflexivity].
  destruct (if truthy _ then _ else _) as [u s1| |]; try reflexivity.
  destruct (g_i s1); reflexivity.
Qed.

Lemma nearestPrime_unfold fuel num min max s :
  nearestPrime fuel num min max s =
  match isPrime fuel num s with
  | Ret p s1 =>
      if truthy p then Ret (Fin num) s1
      else
        match scan_up fuel fuel max num s1 with
        | Ret nextPrime s2 =>
            match scan_down fuel fuel min num s2 with
            | Ret prevPrime s3 =>
                Ret (choose (Fin num) (Fin nextPrime)
                       (let prevPrime1 :=
                          if gt_num (Fin nextPrime) max then NaN
                          else Fin prevPrime in
                        if lt_num prevPrime1 min then NaN else prevPrime1))
                    s3
            | Throw e s3 => Throw e s3
            | Timeout => Timeout
            end
        | Throw e s2 => Throw e s2
        | Timeout => Timeout
        end
  | Throw e s1 => Throw e s1
  | Timeout => Timeout
  end.
Proof.
  unfold nearestPrime, bind.
  destruct (isPrime fuel num s) as [p s1| |]; try reflexivity.
  destruct (truthy p); reflexivity.
Qed.

Lemma listprimes_unfold fuel max s :
  listprimes fuel max s =
  match g_num s with
  | None => Throw (ReferenceError "num") s
  | Some num =>
      match getSieve fuel num s with
      | Ret l s1 =>
          let mapped := js_map and_index (deref_or_empty s1 l) in
          let s2 := set_objs (objs s1 ++ [mapped]) s1 in
          alloc (filter_Boolean (deref_or_empty s2 (S (length (objs s1))))) s2
      | Throw e s1 => Throw e s1
      | Timeout => Timeout
      end
  end.
Proof.
  unfold listprimes, bind, lookup_global.
  destruct (g_num s); [|reflexivity].
  destruct (getSieve fuel _ s); reflexivity.
Qed.

(** ** The table only grows, by slots holding [true] *)

Lemma extends_refl s : extends s s.
Proof. exists O. cbn. symmetry. apply app_nil_r. Qed.

Lemma extends_same s s' : sieve s' = sieve s -> extends s s'.
Proof. intros H. exists O. rewrite H. cbn. symmetry. apply app_nil_r. Qed.

Lemma extends_trans s1 s2 s3 : extends s1 s2 -> extends s2 s3 -> extends s1 s3.
Proof.
  intros [n H1] [m H2]. exists (n + m)%nat.
  rewrite H2, H1, <- app_assoc, replicate_add. reflexivity.
Qed.

Lemma extends_grown max s : extends s (grown max s).
Proof. eexists. reflexivity. Qed.

Lemma extends_copied max s : extends s (copied max s).
Proof. apply extends_same. reflexivity. Qed.

Lemma preserves_ret {A} (a : A) : preserves (ret a).
Proof. intros s s' [= <-]. apply extends_refl. Qed.

Lemma preserves_bind {A B} (m : M A) (f : A -> M B) :
  preserves m -> (forall a, preserves (f a)) -> preserves (bind m f).
Proof.
  intros Hm Hf s s' H. unfold bind in H.
  destruct (m s) as [a s1|e s1|] eqn:E; cbn in H.
  - apply (extends_trans _ s1); [apply Hm; rewrite E; reflexivity|].
    apply (Hf a). exact H.
  - injection H as <-. apply Hm. rewrite E. reflexivity.
  - discriminate.
Qed.

Lemma preserves_alloc {A} (a : A -> state -> array) (x : A) :
  preserves (fun s => alloc (a x s) s).
Proof. intros s s' [= <-]. apply extends_same. reflexivity. Qed.

Lemma preserves_lookup_global x g : preserves (lookup_global x g).
Proof.
  intros s s' H. unfold lookup_global in H.
  destruct (g s); injection H as <-; apply extends_refl.
Qed.

Lemma preserves_getSieve fuel max : preserves (getSieve fuel max).
Proof.
  intros s s' H. destruct (getSieve_end_spec fuel max s); cbn in H.
  - discriminate.
  - injection H as <-. apply extends_grown.
  - injection H as <-.
    exact (extends_trans _ _ _ (extends_grown max s) (extends_copied max _)).
Qed.

Lemma preserves_isPrime fuel num : preserves (isPrime fuel num).
Proof.
  intros s s' H. destruct (isPrime_end_spec fuel num s); cbn in H;
    try discriminate; injection H as <-.
  - apply extends_refl.
  - apply extends_grown.
  - exact (extends_trans _ _ _ (extends_grown num s) (extends_copied num _)).
Qed.

Lemma preserves_getLabeledSieve fuel num : preserves (getLabeledSieve fuel num).
Proof.
  apply preserves_bind; [apply preserves_getSieve|].
  intros l. apply (preserves_alloc (fun l s => js_map _ (deref_or_empty s l))).
Qed.

Lemma preserves_listprimes fuel max : preserves (listprimes fuel max).
Proof.
  apply preserves_bind; [apply preserves_lookup_global|]. intros n.
  apply preserves_bind; [apply preserves_getSieve|]. intros l.
  apply preserves_bind.
  - apply (preserves_alloc (fun l s => js_map _ (deref_or_empty s l))).
  - intros m.
    apply (preserves_alloc (fun m s => filter_Boolean (deref_or_empty s m))).
Qed.

Lemma preserves_scan_up fuel ifuel max n : preserves (scan_up fuel ifuel max n).
Proof.
  revert n. induction fuel as [|f IH]; intros n; [intros s s' [=]|].
  cbn [scan_up]. destruct (lt_num (Fin n) max); [|apply preserves_ret].
  apply preserves_bind; [apply preserves_isPrime|]. intros p.
  destruct (loose_eq_false p); [apply IH | apply preserves_ret].
Qed.

Lemma preserves_scan_down fuel ifuel min n :
  preserves (scan_down fuel ifuel min n).
Proof.
  revert n. induction fuel as [|f IH]; intros n; [intros s s' [=]|].
  cbn [scan_down]. destruct (gt_num (Fin n) min); [|apply preserves_ret].
  apply preserves_bind; [apply preserves_isPrime|]. intros p.
  destruct (loose_eq_false p); [apply IH | apply preserves_ret].
Qed.

Lemma preserves_nearestPrime fuel num min max :
  preserves (nearestPrime fuel num min max).
Proof.
  apply preserves_bind; [apply preserves_isPrime|]. intros p.
  destruct (truthy p); [apply preserves_ret|].
  apply preserves_bind; [apply preserves_scan_up|]. intros nx.
  apply preserves_bind; [apply preserves_scan_down|]. intros pv.
  apply preserves_ret.
Qed.

Lemma run_extends fuel c s s' : run fuel c s = Some s' -> extends s s'.
Proof.
  destruct c; cbn [run]; intros H.
  - exact (preserves_getSieve _ _ _ _ H).
  - exact (preserves_getLabeledSieve _ _ _ _ H).
  - exact (preserves_listprimes _ _ _ _ H).
  - exact (preserves_isPrime _ _ _ _ H).
  - exact (preserves_nearestPrime _ _ _ _ _ _ H).
Qed.

Lemma step_extends s s' : step s s' -> extends s s'.
Proof.
  intros [fuel c s0 s1 H | k a s0 Hk].
  - exact (run_extends _ _ _ _ H).
  - apply extends_same. reflexivity.
Qed.

Lemma steps_extends s s' : steps s s' -> extends s s'.
Proof.
  induction 1 as [s|s1 s2 s3 _ IH Hs]; [apply extends_refl|].
  exact (extends_trans _ _ _ IH (step_extends _ _ Hs)).
Qed.

Lemma reachable_all_true s :
  reachable s -> sieve s = replicate (length (sieve s)) true_slot.
Proof.
  intros (gl & gi & gn & H). destruct (steps_extends _ _ H) as [n Hn].
  cbn in Hn. rewrite Hn, length_replicate. reflexivity.
Qed.

(** The copy a returning [getSieve] hands out. *)
Lemma getSieve_ret fuel max s l s' :
  getSieve fuel max s = Ret l s' ->
  l = S (length (objs s)) /\ s' = copied max (grown max s) /\
  deref s' l = Some (slice0 (grow (sieve s) max) max).
Proof.
  intros H. destruct (getSieve_end_spec fuel max s); try discriminate.
  injection H as <- <-. split; [reflexivity|]. split; [reflexivity|].
  apply deref_copied_grown.
Qed.

Lemma slice0_grow a max :
  0 <= max -> slice0 (grow a max) max = take (Z.to_nat max) (grow a max).
Proof. intros H. unfold slice0. destruct (max <? 0) eqn:E; [lia | reflexivity]. Qed.

(** ** C2: monotonic extension *)

(** C2. A copy returned by [getSieve(n1)] is the first [n1] slots of the copy
    that a later [getSieve(n2)], [n1 < n2], returns, whatever calls and
    client-side writes come in between: growing the table never changes a
    slot it already has. *)
Theorem getSieve_monotonic_extension
    (fuel1 fuel2 : nat) (n1 n2 : Z) (s s1 s2 s3 : state) (l1 l2 : loc)
    (a1 : array) :
  0 <= n1 -> n1 < n2 ->
  getSieve fuel1 n1 s = Ret l1 s1 -> deref s1 l1 = Some a1 ->
  steps s1 s2 ->
  getSieve fuel2 n2 s2 = Ret l2 s3 ->
  exists a2, deref s3 l2 = Some a2 /\ length a1 = Z.to_nat n1 /\
             take (Z.to_nat n1) a2 = a1.
Proof.
  intros H0 Hlt G1 D1 Hsteps G2.
  destruct (getSieve_ret _ _ _ _ _ G1) as (_ & -> & D1').
  rewrite D1' in D1. injection D1 as <-.
  destruct (getSieve_ret _ _ _ _ _ G2) as (_ & _ & D2).
  eexists. split; [exact D2|].
  pose proof (length_grow (sieve s) n1) as Hlen.
  rewrite !slice0_grow by lia. split.
  - rewrite length_take. lia.
  - destruct (steps_extends _ _ Hsteps) as [k Hk]. cbn in Hk.
    rewrite take_take. replace (Z.to_nat n1 `min` Z.to_nat n2)%nat
      with (Z.to_nat n1) by lia.
    unfold grow at 1. rewrite Hk, <- app_assoc.
    apply take_app_le. lia.
Qed.

Lemma getSieve_monotonic_extension_witness :
  exists a2,
    deref (node_state (trues 3) [trues 1; trues 2]) 2%nat = Some a2 /\
    length (trues 1) = Z.to_nat 1 /\ take (Z.to_nat 1) a2 = trues 1.
Proof.
  apply (getSieve_monotonic_extension 1 1 1 2
           (node_state (trues 2) []) (node_state (trues 2) [trues 1])
           (node_state (trues 3) [trues 1])
           (node_state (trues 3) [trues 1; trues 2]) 1%nat 2%nat (trues 1)).
  - lia.
  - lia.
  - reflexivity.
  - reflexivity.
  - apply (steps_next _ (node_state (trues 2) [trues 1])); [apply steps_refl|].
    apply (step_call 1 (CgetSieve 3)). reflexivity.
  - reflexivity.
Defined.

(** ** C6: what the table holds at 0 and 1 *)

Lemma node_after_throw_reachable : reachable (node_state (trues 2) []).
Proof.
  exists None, None, None.
  apply (steps_next _ (init None None None)); [apply steps_refl|].
  apply (step_call 1 (CgetSieve 2)). reflexivity.
Qed.

(** C6, as stated, fails: after [getSieve(2)] on the fresh module (which
    throws once the table is filled) the slots 0 and 1 hold [true], and
    [getSieve(1)] returns [[true]]. *)
Lemma zero_one_false_counterexample :
  reachable (node_state (trues 2) []) /\
  get (sieve (node_state (trues 2) [])) 0 = VBool true /\
  get (sieve (node_state (trues 2) [])) 1 = VBool true /\
  getSieve 1 1 (node_state (trues 2) [])
  = Ret 1%nat (node_state (trues 2) [[Some (VBool true)]]) /\
  deref (node_state (trues 2) [[Some (VBool true)]]) 1%nat
  = Some [Some (VBool true)].
Proof.
  split; [exact node_after_throw_reachable|]. repeat split.
Qed.

(** C6, amended. In every state reachable through the operations the slots 0
    and 1 of the table, when it has them, hold [true]; and [getSieve(1)],
    when it returns, returns [[true]]. *)
Theorem reachable_zero_one_true (s : state) :
  reachable s ->
  (forall k, 0 <= k < 2 -> k < Z.of_nat (length (sieve s)) ->
             get (sieve s) k = VBool true) /\
  (forall fuel l s', getSieve fuel 1 s = Ret l s' ->
                     deref s' l = Some [Some (VBool true)]).
Proof.
  intros Hr. pose proof (reachable_all_true s Hr) as Hall. split.
  - intros k Hk Hlen. unfold get. destruct (k <? 0) eqn:E; [lia|].
    rewrite Hall, lookup_replicate_2 by lia. reflexivity.
  - intros fuel l s' G. destruct (getSieve_ret _ _ _ _ _ G) as (_ & _ & D).
    rewrite D. f_equal. rewrite slice0_grow by lia.
    unfold grow. rewrite Hall, <- replicate_add, take_replicate.
    pose proof (length_replicate (length (sieve s)) true_slot).
    replace (_ `min` _)%nat with 1%nat; [reflexivity|].
    rewrite length_replicate. lia.
Qed.

Lemma reachable_zero_one_true_witness :
  (forall k, 0 <= k < 2 ->
             k < Z.of_nat (length (sieve (node_state (trues 2) []))) ->
             get (sieve (node_state (trues 2) [])) k = VBool true) /\
  (forall fuel l s', getSieve fuel 1 (node_state (trues 2) []) = Ret l s' ->
                     deref s' l = Some [Some (VBool true)]).
Proof.
  apply (reachable_zero_one_true (node_state (trues 2) [])).
  exists None, None, None.
  apply (steps_next _ (init None None None)); [apply steps_refl|].
  apply (step_call 1 (CgetSieve 2)). reflexivity.
Defined.

(** ** C1: isPrime against trial division *)

(** From the empty table [isPrime(2)] never returns [true]: the copy that
    [getSieve(2)] returns has slots 0 and 1 only. *)
Lemma isPrime_2_fresh fuel gl gi gn :
  returns_true (isPrime fuel 2 (init gl gi gn)) = false.
Proof.
  destruct (isPrime_end_spec fuel 2 (init gl gi gn)); reflexivity.
Qed.

(** C1 fails on the code.  On the freshly loaded module [isPrime(2)] throws,
    and whatever the host binds it cannot return [true]; on a table of the
    two slots 0 and 1, both [false], it returns [undefined]; and once the
    table has five slots, [isPrime(4)] returns [true]. *)
Theorem isPrime_not_trial_division :
  isPrime 1 2 node_init
  = Throw (ReferenceError "length") (node_state (trues 2) []) /\
  (forall fuel gl gi gn, returns_true (isPrime fuel 2 (init gl gi gn)) = false) /\
  isPrime 1 2 (node_state (flags [false; false]) [])
  = Ret VUndef (node_state (flags [false; false]) []) /\
  isPrime 1 0 node_init = Ret VUndef node_init /\
  run 1 (CgetSieve 5) node_init = Some (node_state (trues 5) []) /\
  isPrime 1 4 (node_state (trues 5) [])
  = Ret (VBool true) (node_state (trues 5) []).
Proof.
  split; [reflexivity|]. split; [exact isPrime_2_fresh|]. repeat split.
Qed.

(** ** C8: negative arguments *)

(** C8, as stated, fails: [isPrime(-1)] returns [undefined]; nothing is
    thrown. *)
Lemma isPrime_negative_counterexample :
  isPrime 1 (-1) node_init = Ret VUndef node_init.
Proof. reflexivity. Qed.

(** C8, amended. For every negative integer [num], in every state,
    [isPrime(num)] returns [undefined] and leaves the state as it was: the
    module validates no argument and has no InvalidArgument error. *)
Theorem isPrime_negative (fuel : nat) (num : Z) (s : state) :
  num < 0 -> isPrime fuel num s = Ret VUndef s.
Proof.
  intros H. rewrite isPrime_known by lia. unfold get.
  destruct (num <? 0) eqn:E; [reflexivity | lia].
Qed.

Lemma isPrime_negative_witness :
  isPrime 1 (-1) node_init = Ret VUndef node_init.
Proof. apply (isPrime_negative 1 (-1) node_init). lia. Defined.

(** ** C3 and C4: what nearestPrime returns *)

Lemma scan_up_at_max fuel ifuel n s :
  scan_up (S fuel) ifuel (Fin n) n s = Ret n s.
Proof.
  cbn [scan_up lt_num]. rewrite Z.ltb_irrefl. reflexivity.
Qed.

Lemma scan_down_at_min fuel ifuel n s :
  scan_down (S fuel) ifuel (Fin n) n s = Ret n s.
Proof.
  cbn [scan_down gt_num lt_num]. rewrite Z.ltb_irrefl. reflexivity.
Qed.

Lemma nearestPrime_8_8_8 fuel s :
  returns_NaN (nearestPrime fuel 8 (Fin 8) (Fin 8) s) = false.
Proof.
  unfold nearestPrime. unfold bind at 1.
  destruct (isPrime fuel 8 s) as [p s1| |]; try reflexivity.
  destruct (truthy p); [reflexivity|].
  destruct fuel as [|f]; [reflexivity|].
  unfold bind. rewrite scan_up_at_max, scan_down_at_min. reflexivity.
Qed.

Lemma scan_up_at_end fuel ifuel max n s :
  n = Z.of_nat (length (sieve s)) -> scan_up (S fuel) ifuel max n s = Ret n s.
Proof.
  intros ->. cbn [scan_up]. destruct (lt_num _ max); [|reflexivity].
  unfold bind. rewrite isPrime_known by lia. rewrite get_end. reflexivity.
Qed.

Lemma scan_down_at_end fuel ifuel min n s :
  n = Z.of_nat (length (sieve s)) -> scan_down (S fuel) ifuel min n s = Ret n s.
Proof.
  intros ->. cbn [scan_down]. destruct (gt_num _ min); [|reflexivity].
  unfold bind. rewrite isPrime_known by lia. rewrite get_end. reflexivity.
Qed.

(** On a table that holds [true] throughout, as every reachable table does,
    [nearestPrime(10)] never returns 11. *)
Lemma nearestPrime_10_all_true fuel n o gl gi gn :
  returns_num 11 (nearestPrime_default fuel 10 (mkState (trues n) o gl gi gn))
  = false.
Proof.
  set (s := mkState (trues n) o gl gi gn).
  unfold nearestPrime_default. rewrite nearestPrime_unfold.
  assert (Hlen : length (sieve s) = n) by apply length_replicate.
  destruct (isPrime_end_spec fuel 10 s) as [Hk|Hlt|e Hlt|Hlt]; try reflexivity.
  - destruct (Z.eq_dec (Z.of_nat n) 10) as [Heq|Hne].
    + replace (get (sieve s) 10) with VUndef
        by (rewrite <- Heq, <- Hlen; symmetry; apply get_end).
      cbn [truthy]. destruct fuel as [|f]; [reflexivity|].
      rewrite scan_up_at_end, scan_down_at_end by lia. reflexivity.
    + replace (get (sieve s) 10) with (VBool true); [reflexivity|].
      unfold get, s, trues. cbn [sieve]. change (10 <? 0) with false.
      cbv iota. rewrite lookup_replicate_2 by lia. reflexivity.
  - cbn [truthy]. destruct fuel as [|f]; [reflexivity|].
    assert (Hl : 10 = Z.of_nat (length (sieve (copied 10 (grown 10 s))))).
    { pose proof (length_grow (sieve s) 10) as H. cbn [copied grown set_objs
        set_sieve sieve] in *. lia. }
    rewrite scan_up_at_end, scan_down_at_end by exact Hl. reflexivity.
Qed.

(** C3 fails on the code.  With the flags of 0..12 as a sieve would leave
    them, [nearestPrime(10)] finds 11 above and 7 below and returns 7, the
    farther one; on the freshly loaded module it throws; and on a table that
    holds [true] throughout, it never returns 11. *)
Theorem nearestPrime_returns_farther :
  nearestPrime_default 12 10 sieved13 = Ret (Fin 7) sieved13 /\
  scan_up 12 12 PosInf 10 sieved13 = Ret 11 sieved13 /\
  scan_down 12 12 NegInf 10 sieved13 = Ret 7 sieved13 /\
  choose (Fin 10) (Fin 11) (Fin 7) = Fin 7 /\
  nearestPrime_default 12 10 node_init
  = Throw (ReferenceError "length") (node_state (trues 10) []) /\
  (forall fuel n o gl gi gn,
     returns_num 11
       (nearestPrime_default fuel 10 (mkState (trues n) o gl gi gn)) = false).
Proof.
  split; [reflexivity|]. split; [reflexivity|]. split; [reflexivity|].
  split; [reflexivity|]. split; [reflexivity|].
  exact nearestPrime_10_all_true.
Qed.

(** C4 fails on the code.  With the flags of 0..12 as a sieve would leave
    them, [nearestPrime(8, 8, 8)] returns 8; and in no state at all does it
    return [NaN]. *)
Theorem nearestPrime_pinned_not_NaN :
  nearestPrime 1 8 (Fin 8) (Fin 8) sieved13 = Ret (Fin 8) sieved13 /\
  (forall fuel s, returns_NaN (nearestPrime fuel 8 (Fin 8) (Fin 8) s) = false).
Proof. split; [reflexivity | exact nearestPrime_8_8_8]. Qed.

(** ** C9: the scans of nearestPrime end *)

Lemma loose_eq_false_get (a : array) (n : Z) :
  loose_eq_false (get a n) = true -> 0 <= n < Z.of_nat (length a).
Proof.
  unfold get. destruct (n <? 0) eqn:E; [discriminate|].
  destruct (a !! Z.to_nat n) as [x|] eqn:L; [|discriminate].
  intros _. apply lookup_lt_Some in L. lia.
Qed.

(** The upward scan stops at the end of the table at the latest: there
    [isPrime] returns [undefined], which is not [== false]. *)
Lemma scan_up_returns fuel ifuel max n s :
  n <= Z.of_nat (length (sieve s)) ->
  Z.of_nat (length (sieve s)) - n < Z.of_nat fuel ->
  exists r, scan_up fuel ifuel max n s = Ret r s.
Proof.
  revert n. induction fuel as [|f IH]; intros n Hn Hf; [lia|].
  cbn [scan_up]. destruct (lt_num (Fin n) max); [|eexists; reflexivity].
  unfold bind. rewrite isPrime_known by exact Hn.
  destruct (loose_eq_false (get (sieve s) n)) eqn:E; [|eexists; reflexivity].
  apply loose_eq_false_get in E. apply IH; lia.
Qed.

(** The downward scan stops below index 0 at the latest. *)
Lemma scan_down_returns fuel ifuel min n s :
  n <= Z.of_nat (length (sieve s)) ->
  Z.max 0 (n + 1) < Z.of_nat fuel ->
  exists r, scan_down fuel ifuel min n s = Ret r s.
Proof.
  revert n. induction fuel as [|f IH]; intros n Hn Hf; [lia|].
  cbn [scan_down]. destruct (gt_num (Fin n) min); [|eexists; reflexivity].
  unfold bind. rewrite isPrime_known by exact Hn.
  destruct (loose_eq_false (get (sieve s) n)) eqn:E; [|eexists; reflexivity].
  apply loose_eq_false_get in E. apply IH; lia.
Qed.

Lemma isPrime_ret_covers fuel num s p s1 :
  isPrime fuel num s = Ret p s1 -> num <= Z.of_nat (length (sieve s1)).
Proof.
  intros H. destruct (isPrime_end_spec fuel num s) as [Hk| | |Hlt];
    try discriminate; injection H as _ <-.
  - exact Hk.
  - pose proof (length_grow (sieve s) num). cbn. lia.
Qed.

Lemma nearestPrime_with_fuel
    (fuel : nat) (num : Z) (min max : number) (s s1 : state) (p : value) :
  isPrime fuel num s = Ret p s1 ->
  (2 + length (sieve s1) + Z.abs_nat num <= fuel)%nat ->
  exists r, nearestPrime fuel num min max s = Ret r s1.
Proof.
  intros Hp Hfuel.
  pose proof (isPrime_ret_covers _ _ _ _ _ Hp) as Hcov.
  destruct (scan_up_returns fuel fuel max num s1) as [nx Hup];
    [exact Hcov | lia |].
  destruct (scan_down_returns fuel fuel min num s1) as [pv Hdown];
    [exact Hcov | lia |].
  rewrite nearestPrime_unfold, Hp.
  destruct (truthy p); [eexists; reflexivity|].
  rewrite Hup, Hdown. eexists. reflexivity.
Qed.

(** Under Node the test that opens [nearestPrime] ends with any fuel: the
    sieve loop throws at its first guard. *)
Lemma isPrime_ends_node fuel num s :
  g_length s = None -> isPrime (S fuel) num s <> Timeout.
Proof.
  intros Hl E.
  destruct (Z_lt_le_dec (Z.of_nat (length (sieve s))) num) as [Hlt|Hge].
  - rewrite isPrime_grows, getSieve_grows, sieve_loop_S in E by exact Hlt.
    change (g_length (grown num s)) with (g_length s) in E.
    rewrite Hl in E. discriminate.
  - rewrite isPrime_known in E by exact Hge. discriminate.
Qed.

(** The scans of [nearestPrime] end, for all bounds, the infinite ones
    included: once the test [isPrime(num)] that opens the call has returned,
    the call returns after finitely many steps; and under Node every call
    ends, by a return or by the [ReferenceError] of the sieve loop. *)
Theorem nearestPrime_terminates (num : Z) (min max : number) (s : state) :
  (forall fuel0 p s1,
     isPrime fuel0 num s = Ret p s1 ->
     exists fuel r, nearestPrime fuel num min max s = Ret r s1) /\
  (g_length s = None ->
   exists fuel s', final (nearestPrime fuel num min max s) = Some s').
Proof.
  assert (Hret : forall fuel0 p s1,
             isPrime fuel0 num s = Ret p s1 ->
             exists fuel r, nearestPrime fuel num min max s = Ret r s1).
  { intros fuel0 p s1 Hp.
    set (fuel := (2 + length (sieve s1) + Z.abs_nat num)%nat).
    exists fuel. apply (nearestPrime_with_fuel fuel num min max s s1 p).
    - apply (isPrime_ret_fuel fuel0); [exact Hp | unfold fuel; lia].
    - unfold fuel. lia. }
  split; [exact Hret|]. intros Hl.
  destruct (isPrime 1 num s) as [p s1|e s1|] eqn:E.
  - destruct (Hret 1%nat p s1 E) as (fuel & r & H).
    exists fuel, s1. rewrite H. reflexivity.
  - exists 1%nat, s1. rewrite nearestPrime_unfold, E. reflexivity.
  - exfalso. exact (isPrime_ends_node 0 num s Hl E).
Qed.

(** C9 fails on the code.  On the freshly loaded module [nearestPrime(10)]
    does not return: under Node its opening test throws the
    [ReferenceError] of the sieve loop, whatever the fuel, and under a host
    that binds [length] and [i] to 0 the sieve loop never ends.  Under Node
    no call with [num] beyond the table returns, whatever the bounds. *)
Theorem nearestPrime_does_not_return :
  (forall fuel,
     nearestPrime_default (S fuel) 10 node_init
     = Throw (ReferenceError "length") (node_state (trues 10) [])) /\
  (forall fuel,
     nearestPrime_default fuel 10 (init (Some 0) (Some 0) None) = Timeout) /\
  (forall fuel a o gi gn (k : nat) min max,
     returns (nearestPrime fuel (Z.of_nat (length a) + 1 + Z.of_nat k) min max
                (mkState a o None gi gn)) = false).
Proof.
  split; [|split].
  - intros fuel. unfold nearestPrime_default.
    rewrite nearestPrime_unfold, isPrime_grows, getSieve_grows, sieve_loop_S
      by (cbn; lia).
    reflexivity.
  - intros fuel. unfold nearestPrime_default.
    rewrite nearestPrime_unfold, isPrime_grows, getSieve_grows by (cbn; lia).
    rewrite (sieve_loop_diverges fuel fuel _ 0 0); [reflexivity| |lia|];
      reflexivity.
  - intros fuel a o gi gn k min max.
    set (s := mkState a o None gi gn).
    rewrite nearestPrime_unfold, isPrime_grows, getSieve_grows
      by (cbn; lia).
    destruct fuel as [|f]; [reflexivity|].
    rewrite sieve_loop_S. reflexivity.
Qed.

(** ** C10: getLabeledSieve and the exported names *)

Lemma length_mapi_from f i (a : array) : length (mapi_from f i a) = length a.
Proof.
  revert i. induction a as [|[v|] r IH]; intros i; cbn; [reflexivity| |];
    f_equal; apply IH.
Qed.

Lemma lookup_mapi_from f i (a : array) (k : nat) :
  mapi_from f i a !! k = fmap (fun v => f v (i + Z.of_nat k)) <$> (a !! k).
Proof.
  revert i k. induction a as [|x r IH]; intros i k; [reflexivity|].
  destruct k as [|k].
  - destruct x as [v|]; cbn; [|reflexivity].
    replace (i + Z.of_nat 0) with i by lia. reflexivity.
  - destruct x as [v|]; cbn; rewrite IH;
      replace (i + 1 + Z.of_nat k) with (i + Z.of_nat (S k)) by lia;
      reflexivity.
Qed.

Lemma deref_alloc a s :
  deref (set_objs (objs s ++ [a]) s) (S (length (objs s))) = Some a.
Proof. cbn. rewrite lookup_app_r by lia. rewrite Nat.sub_diag. reflexivity. Qed.

(** For [num >= 0], [getLabeledSieve(num)] ends as [getSieve(num)] ends; when
    that returns a copy, of [num] slots, [getLabeledSieve] returns an array of
    [num] slots whose slot [i] holds [{[i]: each}] for the copy's slot [i]. *)
Lemma getLabeledSieve_relabels (fuel : nat) (num : Z) (s : state) :
  0 <= num ->
  match getSieve fuel num s with
  | Ret l s1 =>
      exists a l' s2 a',
        deref s1 l = Some a /\ length a = Z.to_nat num /\
        getLabeledSieve fuel num s = Ret l' s2 /\
        deref s2 l' = Some a' /\ length a' = Z.to_nat num /\
        forall i : nat, a' !! i = (fmap (VLabel (Z.of_nat i)) <$> (a !! i))
  | Throw e s1 => getLabeledSieve fuel num s = Throw e s1
  | Timeout => getLabeledSieve fuel num s = Timeout
  end.
Proof.
  intros Hn. unfold getLabeledSieve, bind.
  destruct (getSieve fuel num s) as [l s1|e s1|] eqn:G; try reflexivity.
  destruct (getSieve_ret _ _ _ _ _ G) as (_ & _ & D).
  assert (Hlen : length (slice0 (grow (sieve s) num) num) = Z.to_nat num).
  { apply length_slice0. pose proof (length_grow (sieve s) num). lia. }
  eexists _, _, _, _. split; [exact D|]. split; [exact Hlen|].
  split; [reflexivity|]. split; [apply deref_alloc|].
  unfold deref_or_empty. rewrite D. unfold js_map.
  split; [rewrite length_mapi_from; exact Hlen|].
  intros i. rewrite lookup_mapi_from. reflexivity.
Qed.

(** C10 fails on the code.  Evaluating [module.exports] throws
    [ReferenceError] on [listPrimes]: no object is made and nothing is
    exported, [getLabeledSieve] no more than [isPrime].  And on the freshly
    loaded module [getLabeledSieve(1)] returns no sequence: it throws the
    [ReferenceError] of the sieve loop, whatever the fuel. *)
Theorem getLabeledSieve_neither_exported_nor_returning :
  module_exports = inl (ReferenceError "listPrimes") /\
  existsb (String.eqb "isPrime") export_literal = false /\
  (forall fuel,
     getLabeledSieve (S fuel) 1 node_init
     = Throw (ReferenceError "length") (node_state (trues 1) [])) /\
  (forall fuel, returns (getLabeledSieve fuel 1 node_init) = false).
Proof.
  assert (H : forall fuel,
             getLabeledSieve (S fuel) 1 node_init
             = Throw (ReferenceError "length") (node_state (trues 1) [])).
  { intros fuel. unfold getLabeledSieve, bind.
    rewrite getSieve_grows, sieve_loop_S by (cbn; lia). reflexivity. }
  split; [reflexivity|]. split; [reflexivity|]. split; [exact H|].
  intros [|fuel]; [reflexivity|]. rewrite H. reflexivity.
Qed.

(** ** C5: what listprimes lists *)

Lemma filter_map_and_index i (a : array) :
  filter_Boolean (mapi_from and_index i a) = map num_slot (listed_from i a).
Proof.
  revert i. induction a as [|[v|] r IH]; intros i; cbn; [reflexivity| |].
  - unfold and_index. destruct (truthy v) eqn:T; cbn.
    + destruct (i =? 0); cbn; rewrite IH; reflexivity.
    + rewrite T. apply IH.
  - apply IH.
Qed.

Lemma get_of_nat (a : array) (k : nat) :
  get a (Z.of_nat k) = match a !! k with Some (Some v) => v | _ => VUndef end.
Proof.
  unfold get. destruct (Z.ltb_spec (Z.of_nat k) 0) as [E|E]; [lia|].
  rewrite Nat2Z.id. reflexivity.
Qed.

Lemma get_cons_S x (r : array) (k : nat) :
  get (x :: r) (Z.of_nat (S k)) = get r (Z.of_nat k).
Proof. rewrite !get_of_nat. reflexivity. Qed.

Lemma listed_slot_get (a : array) (k : nat) (i : Z) x :
  a !! k = Some x ->
  listed_slot x i = truthy (get a (Z.of_nat k)) && negb (i =? 0).
Proof.
  intros H. rewrite get_of_nat, H. destruct x; reflexivity.
Qed.

Lemma elem_of_listed_from i (a : array) z :
  z ∈ listed_from i a <->
  exists k : nat, z = i + Z.of_nat k /\ (k < length a)%nat /\ z <> 0 /\
                  truthy (get a (Z.of_nat k)) = true.
Proof.
  revert i. induction a as [|x r IH]; intros i.
  - cbn. rewrite elem_of_nil. split; [tauto|]. intros (k & _ & Hk & _).
    cbn in Hk. lia.
  - cbn [listed_from].
    assert (Hr : z ∈ listed_from (i + 1) r <->
                 exists k : nat, z = i + Z.of_nat (S k) /\
                   (S k < length (x :: r))%nat /\ z <> 0 /\
                   truthy (get (x :: r) (Z.of_nat (S k))) = true).
    { rewrite IH. split; intros (k & H1 & H2 & H3 & H4); exists k;
        (split; [lia|]); (split; [cbn in *; lia|]); (split; [exact H3|]);
        rewrite get_cons_S in *; exact H4. }
    assert (H0 : listed_slot x i = true <->
                 (i <> 0 /\ truthy (get (x :: r) (Z.of_nat 0)) = true)).
    { rewrite (listed_slot_get (x :: r) 0 i x) by reflexivity.
      rewrite andb_true_iff, negb_true_iff, Z.eqb_neq. tauto. }
    destruct (listed_slot x i) eqn:L.
    + rewrite elem_of_cons, Hr. split.
      * intros [->|(k & H)]; [|exists (S k); exact H].
        exists O. destruct H0 as [H0 _]. specialize (H0 eq_refl).
        split; [lia|]. split; [cbn; lia|]. tauto.
      * intros ([|k] & H1 & H2 & H3 & H4); [left; lia|].
        right. exists k. tauto.
    + rewrite Hr. split.
      * intros (k & H). exists (S k). exact H.
      * intros ([|k] & H1 & H2 & H3 & H4).
        -- exfalso. destruct H0 as [_ H0].
           assert (i = z) by lia. subst i.
           specialize (H0 (conj H3 H4)). discriminate.
        -- exists k. tauto.
Qed.

Lemma listed_from_lower i a z : z ∈ listed_from i a -> i <= z.
Proof. rewrite elem_of_listed_from. intros (k & -> & _). lia. Qed.

Lemma listed_from_sorted i (a : array) : StronglySorted Z.lt (listed_from i a).
Proof.
  revert i. induction a as [|x r IH]; intros i; cbn; [constructor|].
  destruct (listed_slot x i); [|apply IH].
  constructor; [apply IH|]. apply Forall_forall. intros z Hz.
  apply listed_from_lower in Hz. lia.
Qed.

(** Under Node [listprimes(20)] throws, its body reading the unbound [num];
    with [num] bound to 3 and a table of three [true] slots the list is
    [[1, 2]], index 0 left out although its slot is [true]; and with [num]
    bound to 2 the list is [[1]]. *)
Example listprimes_examples :
  listprimes 1 20 node_init = Throw (ReferenceError "num") node_init /\
  (let s := mkState (trues 3) [] None None (Some 3) in
   let s' := mkState (trues 3)
               [trues 3; [num_slot 0; num_slot 1; num_slot 2];
                [num_slot 1; num_slot 2]] None None (Some 3) in
   get (sieve s) 0 = VBool true /\
   listprimes 1 3 s = Ret 3%nat s' /\
   deref s' 3%nat = Some [num_slot 1; num_slot 2]) /\
  (let s := mkState (trues 2) [] None None (Some 2) in
   let s' := mkState (trues 2)
               [trues 2; [num_slot 0; num_slot 1]; [num_slot 1]]
               None None (Some 2) in
   listprimes 1 2 s = Ret 3%nat s' /\ deref s' 3%nat = Some [num_slot 1]).
Proof. repeat split. Qed.

Lemma listprimes_run fuel max num s l s1 (a : array) :
  g_num s = Some num ->
  getSieve fuel num s = Ret l s1 -> deref s1 l = Some a ->
  let s1' := set_objs (objs s1 ++ [js_map and_index a]) s1 in
  listprimes fuel max s
  = Ret (S (length (objs s1')))
        (set_objs (objs s1' ++ [filter_Boolean (js_map and_index a)]) s1').
Proof.
  intros Hn G D s1'. unfold listprimes, bind, lookup_global. rewrite Hn, G.
  unfold deref_or_empty. rewrite D. unfold alloc. cbv beta iota.
  rewrite deref_alloc. reflexivity.
Qed.

(** When the call of [getSieve] inside [listprimes] returns a copy [a] of
    the table, [listprimes] returns the ascending sequence of exactly the
    indices [z] with [1 <= z < |a|] whose slot of [a] is truthy: index 0 is
    never listed. *)
Lemma listprimes_lists
    (fuel : nat) (max num : Z) (s s1 : state) (l : loc) (a : array) :
  g_num s = Some num ->
  getSieve fuel num s = Ret l s1 -> deref s1 l = Some a ->
  exists l' s2 out,
    listprimes fuel max s = Ret l' s2 /\
    deref s2 l' = Some (map num_slot out) /\
    StronglySorted Z.lt out /\
    forall z, z ∈ out <->
              (1 <= z < Z.of_nat (length a) /\ truthy (get a z) = true).
Proof.
  intros Hn G D.
  eexists _, _, (listed_from 0 a). split; [|split; [|split]].
  - exact (listprimes_run fuel max num s l s1 a Hn G D).
  - rewrite deref_alloc. unfold js_map. rewrite filter_map_and_index.
    reflexivity.
  - apply listed_from_sorted.
  - intros z. rewrite elem_of_listed_from. split.
    + intros (k & -> & Hk & Hz & Ht). split; [lia|].
      replace (0 + Z.of_nat k) with (Z.of_nat k) by lia. exact Ht.
    + intros (Hz & Ht). exists (Z.to_nat z). rewrite Z2Nat.id by lia.
      split; [lia|]. split; [lia|]. split; [lia | exact Ht].
Qed.

(** C5 fails on the code.  The body of [listprimes(max)] reads [num], not
    its parameter: under a host that does not bind [num], as Node, every
    call throws [ReferenceError], in every state, and [listPrimes], the name
    exported, is bound to nothing.  With [num] bound to 20 on the table the
    module builds, the list is 1, 2, ..., 19; only on a table flagged as a
    sieve would leave it does the body list the primes. *)
Theorem listprimes_fails_its_example :
  (forall fuel max a o gl gi,
     listprimes fuel max (mkState a o gl gi None)
     = Throw (ReferenceError "num") (mkState a o gl gi None)) /\
  module_exports = inl (ReferenceError "listPrimes") /\
  see_ref (listprimes 1 20 (mkState (trues 20) [] None None (Some 20)))
  = SeenArray (Some (map num_slot (map Z.of_nat (seq 1 19)))) /\
  see_ref (listprimes 1 20 (mkState (sieve sieved13) [] None None (Some 13)))
  = SeenArray (Some (map num_slot [2; 3; 5; 7; 11])).
Proof.
  split; [|split; [|split]]; try reflexivity.
Qed.

(** ** C7: the copies are independent of the table *)

Section Frame.

(** A client overwrites the array at [S k], one the module handed out. *)
Variables (k : nat) (b : array).

Let W : state -> state := write_ref (S k) b.
Let valid (s : state) : Prop := (k < length (objs s))%nat.

Lemma mark_multiples_frame fuel prime multiple s :
  mark_multiples fuel prime multiple (W s)
  = map_final W (mark_multiples fuel prime multiple s).
Proof.
  revert multiple s. induction fuel as [|f IH]; intros m s; [reflexivity|].
  cbn [mark_multiples]. unfold bind, lookup_global.
  change (g_length (W s)) with (g_length s).
  destruct (g_length s) as [len|]; [|reflexivity].
  destruct (m <? len); [|reflexivity].
  exact (IH (m + prime) (set_sieve (store (sieve s) m (VBool false)) s)).
Qed.

Lemma sieve_loop_frame fuel ifuel prime s :
  sieve_loop fuel ifuel prime (W s)
  = map_final W (sieve_loop fuel ifuel prime s).
Proof.
  revert s. induction fuel as [|f IH]; intros s; [reflexivity|].
  rewrite !sieve_loop_S.
  change (g_length (W s)) with (g_length s).
  destruct (g_length s) as [len|]; [|reflexivity].
  destruct (prime <=? len); [|reflexivity].
  change (sieve (W s)) with (sieve s).
  assert (Hbody :
    (if truthy (get (sieve s) prime)
     then mark_multiples ifuel prime (prime * prime) (W s)
     else Ret tt (W s))
    = map_final W (if truthy (get (sieve s) prime)
                   then mark_multiples ifuel prime (prime * prime) s
                   else Ret tt s)).
  { destruct (truthy (get (sieve s) prime));
      [apply mark_multiples_frame | reflexivity]. }
  rewrite Hbody.
  destruct (if truthy (get (sieve s) prime)
            then mark_multiples ifuel prime (prime * prime) s
            else Ret tt s) as [[] s1|e s1|]; cbn [map_final];
    [|reflexivity|reflexivity].
  change (g_i (W s1)) with (g_i s1).
  destruct (g_i s1) as [i|]; [|reflexivity].
  exact (IH (set_i (Some (i + 1)) s1)).
Qed.

Lemma alloc_frame a s : valid s -> alloc a (W s) = map_final W (alloc a s).
Proof.
  intros Hv. unfold alloc, W, write_ref, set_objs. cbn.
  rewrite length_insert, insert_app_l by exact Hv. reflexivity.
Qed.

Lemma getSieve_frame fuel max s :
  valid s -> getSieve fuel max (W s) = map_final W (getSieve fuel max s).
Proof.
  intros Hv. unfold getSieve. change (sieve (W s)) with (sieve s).
  destruct (Z.of_nat (length (sieve s)) >=? max); [apply alloc_frame, Hv|].
  set (a := sieve s ++ freshSieve _). unfold bind.
  change (set_sieve a (W s)) with (W (set_sieve a s)).
  rewrite sieve_loop_frame.
  pose proof (sieve_loop_end fuel fuel (set_sieve a s)) as He.
  destruct He; cbn [map_final]; try reflexivity.
  apply (alloc_frame _ (set_sieve a s)). exact Hv.
Qed.

(** An array allocated later is not the one the client overwrites. *)
Lemma deref_frame s l :
  (S k < l)%nat -> deref (W s) l = deref s l.
Proof.
  intros Hl. destruct l as [|j]; [reflexivity|]. cbn.
  apply list_lookup_insert_ne. lia.
Qed.

Lemma isPrime_frame fuel num s :
  valid s -> isPrime fuel num (W s) = map_final W (isPrime fuel num s).
Proof.
  intros Hv. unfold isPrime. change (sieve (W s)) with (sieve s).
  destruct (Z.of_nat (length (sieve s)) >=? num); [reflexivity|].
  unfold bind. rewrite getSieve_frame by exact Hv.
  destruct (getSieve fuel num s) as [l s1|e s1|] eqn:G; cbn [map_final];
    try reflexivity.
  destruct (getSieve_ret _ _ _ _ _ G) as (-> & _ & _).
  unfold deref_or_empty. rewrite deref_frame by (unfold valid in Hv; lia).
  reflexivity.
Qed.

Lemma isPrime_objs fuel num s p s1 :
  isPrime fuel num s = Ret p s1 ->
  (length (objs s) <= length (objs s1))%nat.
Proof.
  intros H. destruct (isPrime_end_spec fuel num s); try discriminate;
    injection H as _ <-; cbn; [|rewrite length_app]; lia.
Qed.

Lemma scan_up_frame fuel ifuel max n s :
  valid s ->
  scan_up fuel ifuel max n (W s) = map_final W (scan_up fuel ifuel max n s)
  /\ forall r s1, scan_up fuel ifuel max n s = Ret r s1 -> valid s1.
Proof.
  revert n s. induction fuel as [|f IH]; intros n s Hv;
    [split; [reflexivity | discriminate]|].
  cbn [scan_up]. destruct (lt_num (Fin n) max).
  2:{ split; [reflexivity|]. intros r s1 [= _ <-]. exact Hv. }
  unfold bind. rewrite isPrime_frame by exact Hv.
  destruct (isPrime ifuel n s) as [p s1|e s1|] eqn:E; cbn [map_final];
    [|split; [reflexivity | discriminate] ..].
  assert (Hv1 : valid s1).
  { pose proof (isPrime_objs _ _ _ _ _ E). unfold valid in *. lia. }
  destruct (loose_eq_false p); [exact (IH (n + 1) s1 Hv1)|].
  split; [reflexivity|]. intros r s2 [= _ <-]. exact Hv1.
Qed.

Lemma scan_down_frame fuel ifuel min n s :
  valid s ->
  scan_down fuel ifuel min n (W s)
  = map_final W (scan_down fuel ifuel min n s)
  /\ forall r s1, scan_down fuel ifuel min n s = Ret r s1 -> valid s1.
Proof.
  revert n s. induction fuel as [|f IH]; intros n s Hv;
    [split; [reflexivity | discriminate]|].
  cbn [scan_down]. destruct (gt_num (Fin n) min).
  2:{ split; [reflexivity|]. intros r s1 [= _ <-]. exact Hv. }
  unfold bind. rewrite isPrime_frame by exact Hv.
  destruct (isPrime ifuel n s) as [p s1|e s1|] eqn:E; cbn [map_final];
    [|split; [reflexivity | discriminate] ..].
  assert (Hv1 : valid s1).
  { pose proof (isPrime_objs _ _ _ _ _ E). unfold valid in *. lia. }
  destruct (loose_eq_false p); [exact (IH (n - 1) s1 Hv1)|].
  split; [reflexivity|]. intros r s2 [= _ <-]. exact Hv1.
Qed.

Lemma nearestPrime_frame fuel num min max s :
  valid s ->
  nearestPrime fuel num min max (W s)
  = map_final W (nearestPrime fuel num min max s).
Proof.
  intros Hv. rewrite !nearestPrime_unfold.
  rewrite isPrime_frame by exact Hv.
  destruct (isPrime fuel num s) as [p s1|e s1|] eqn:E; cbn [map_final];
    try reflexivity.
  assert (Hv1 : valid s1).
  { pose proof (isPrime_objs _ _ _ _ _ E). unfold valid in *. lia. }
  destruct (truthy p); [reflexivity|].
  destruct (scan_up_frame fuel fuel max num s1 Hv1) as [-> Hup].
  destruct (scan_up fuel fuel max num s1) as [nx s2|e s2|]; cbn [map_final];
    try reflexivity.
  destruct (scan_down_frame fuel fuel min num s2 (Hup _ _ eq_refl))
    as [-> _].
  destruct (scan_down fuel fuel min num s2) as [pv s3|e s3|];
    reflexivity.
Qed.

Lemma getLabeledSieve_frame fuel num s :
  valid s ->
  getLabeledSieve fuel num (W s) = map_final W (getLabeledSieve fuel num s).
Proof.
  intros Hv. unfold getLabeledSieve, bind.
  rewrite getSieve_frame by exact Hv.
  destruct (getSieve fuel num s) as [l s1|e s1|] eqn:G; cbn [map_final];
    try reflexivity.
  destruct (getSieve_ret _ _ _ _ _ G) as (-> & -> & _).
  unfold deref_or_empty. rewrite deref_frame by (unfold valid in Hv; lia).
  apply alloc_frame. unfold valid in *. cbn. rewrite length_app. lia.
Qed.

Lemma listprimes_frame fuel max s :
  valid s -> listprimes fuel max (W s) = map_final W (listprimes fuel max s).
Proof.
  intros Hv. rewrite !listprimes_unfold.
  change (g_num (W s)) with (g_num s).
  destruct (g_num s) as [num|]; [|reflexivity].
  rewrite getSieve_frame by exact Hv.
  destruct (getSieve fuel num s) as [l s1|e s1|] eqn:G; cbn [map_final];
    try reflexivity.
  destruct (getSieve_ret _ _ _ _ _ G) as (-> & Hs1 & _).
  assert (Hv1 : valid s1).
  { subst s1. unfold valid in *. cbn. rewrite length_app. lia. }
  assert (Hlen : (length (objs s) < length (objs s1))%nat).
  { subst s1. cbn. rewrite length_app. cbn. lia. }
  cbv zeta. unfold deref_or_empty.
  rewrite (deref_frame s1) by (unfold valid in Hv; lia).
  change (length (objs (W s1))) with (length (<[k:=b]> (objs s1))).
  rewrite length_insert.
  change (set_objs (objs (W s1) ++ ?x) (W s1))
    with (set_objs (<[k:=b]> (objs s1) ++ x) (W s1)).
  rewrite <- insert_app_l by exact Hv1.
  match goal with
  | |- context [set_objs (<[k:=b]> (objs s1 ++ [?m])) (W s1)] =>
      change (set_objs (<[k:=b]> (objs s1 ++ [m])) (W s1))
        with (W (set_objs (objs s1 ++ [m]) s1))
  end.
  rewrite deref_frame by (unfold valid in Hv1; lia).
  apply alloc_frame. unfold valid in *. cbn. rewrite length_app. lia.
Qed.

End Frame.

Lemma getLabeledSieve_fresh fuel num s l s' :
  getLabeledSieve fuel num s = Ret l s' -> (S (length (objs s)) < l)%nat.
Proof.
  unfold getLabeledSieve, bind. intros H.
  destruct (getSieve fuel num s) as [l0 s1|e s1|] eqn:G; try discriminate.
  destruct (getSieve_ret _ _ _ _ _ G) as (_ & -> & _).
  injection H as <- _. cbn. rewrite length_app. cbn. lia.
Qed.

Lemma listprimes_fresh fuel max s l s' :
  listprimes fuel max s = Ret l s' -> (S (length (objs s)) < l)%nat.
Proof.
  rewrite listprimes_unfold. intros H.
  destruct (g_num s) as [num|]; [|discriminate].
  destruct (getSieve fuel num s) as [l0 s1|e s1|] eqn:G; try discriminate.
  destruct (getSieve_ret _ _ _ _ _ G) as (_ & -> & _).
  injection H as <- _. cbn. rewrite !length_app. cbn. lia.
Qed.

Lemma see_ref_map_final k b (o : outcome loc) :
  (forall l s, o = Ret l s -> (S k < l)%nat) ->
  see_ref (map_final (write_ref (S k) b) o) = see_ref o.
Proof.
  intros H. destruct o as [l s|e s|]; cbn [map_final see_ref]; try reflexivity.
  f_equal. apply deref_frame. exact (H l s eq_refl).
Qed.

Lemma see_value_map_final W (o : outcome value) :
  see_value (map_final W o) = see_value o.
Proof. destruct o; reflexivity. Qed.

Lemma see_number_map_final W (o : outcome number) :
  see_number (map_final W o) = see_number o.
Proof. destruct o; reflexivity. Qed.

(** Overwriting an array that the module handed out changes nothing a later
    call lets the client see. *)
Lemma observe_frame k b fuel c s :
  (k < length (objs s))%nat ->
  observe fuel c (write_ref (S k) b s) = observe fuel c s.
Proof.
  intros Hv. destruct c; cbn [observe].
  - rewrite getSieve_frame by exact Hv. apply see_ref_map_final.
    intros l s' G. destruct (getSieve_ret _ _ _ _ _ G) as (-> & _). lia.
  - rewrite getLabeledSieve_frame by exact Hv. apply see_ref_map_final.
    intros l s' G. apply getLabeledSieve_fresh in G. lia.
  - rewrite listprimes_frame by exact Hv. apply see_ref_map_final.
    intros l s' G. apply listprimes_fresh in G. lia.
  - rewrite isPrime_frame by exact Hv. apply see_value_map_final.
  - rewrite nearestPrime_frame by exact Hv. apply see_number_map_final.
Qed.

Lemma final_map_final W {A} (o : outcome A) :
  final (map_final W o) = W <$> final o.
Proof. destruct o; reflexivity. Qed.

Lemma run_frame k b fuel c s :
  (k < length (objs s))%nat ->
  run fuel c (write_ref (S k) b s) = write_ref (S k) b <$> run fuel c s.
Proof.
  intros Hv. destruct c; cbn [run].
  - rewrite getSieve_frame by exact Hv. apply final_map_final.
  - rewrite getLabeledSieve_frame by exact Hv. apply final_map_final.
  - rewrite listprimes_frame by exact Hv. apply final_map_final.
  - rewrite isPrime_frame by exact Hv. apply final_map_final.
  - rewrite nearestPrime_frame by exact Hv. apply final_map_final.
Qed.

(** A write names an array the client holds; on a reference that names no
    array yet it changes nothing. *)
Lemma write_ref_ge k b s :
  (length (objs s) <= k)%nat -> write_ref (S k) b s = s.
Proof.
  intros H. destruct s as [a o gl gi gn]. cbn in *. unfold set_objs. cbn.
  rewrite list_insert_ge by exact H. reflexivity.
Qed.

Lemma write_ref_twice k b b' s :
  write_ref (S k) b' (write_ref (S k) b s) = write_ref (S k) b' s.
Proof. cbn. unfold set_objs. cbn. rewrite list_insert_insert_eq. reflexivity. Qed.

Lemma write_ref_swap k k' b b' s :
  k <> k' ->
  write_ref (S k') b' (write_ref (S k) b s)
  = write_ref (S k) b (write_ref (S k') b' s).
Proof.
  intros H. cbn. unfold set_objs. cbn.
  rewrite list_insert_insert_ne by congruence. reflexivity.
Qed.

(** A write into a handed-out array shows in nothing that follows, however
    many calls and further writes follow. *)
Lemma observe_trace_write k b es s :
  observe_trace es (write_ref (S k) b s) = observe_trace es s.
Proof.
  revert s. induction es as [|[fuel c|k' b'] r IH]; intros s; [reflexivity| |].
  - destruct (le_lt_dec (length (objs s)) k) as [Hge|Hlt].
    { rewrite write_ref_ge by exact Hge. reflexivity. }
    cbn [observe_trace]. rewrite observe_frame, run_frame by exact Hlt.
    destruct (run fuel c s) as [s'|]; [|reflexivity].
    cbn [fmap option_fmap option_map]. rewrite IH. reflexivity.
  - cbn [observe_trace]. destruct (Nat.eq_dec k k') as [<-|Hne].
    + rewrite write_ref_twice. reflexivity.
    + rewrite (write_ref_swap k k') by exact Hne. apply IH.
Qed.

(** The calls of a client show the same with its writes as without them. *)
Lemma observe_trace_calls_only es s :
  observe_trace es s = observe_trace (calls_only es) s.
Proof.
  revert s. induction es as [|[fuel c|k b] r IH]; intros s; [reflexivity| |].
  - cbn [observe_trace calls_only].
    destruct (run fuel c s) as [s'|]; [|reflexivity].
    rewrite IH. reflexivity.
  - cbn [observe_trace calls_only]. rewrite observe_trace_write. apply IH.
Qed.

(** C7. The array that [getSieve(max)] returns is a copy of the first [max]
    slots of the table: a new array, not the table, holding exactly those
    slots.  No write into it reaches the table; and whatever the caller
    writes into it, at once and later, and into the other arrays it was
    handed, between any calls, every call shows the caller what it would
    show, and leaves the table as it would leave it, had nothing been
    written. *)
Theorem getSieve_copy_independent
    (fuel : nat) (max : Z) (s s1 : state) (l : loc) :
  0 <= max -> getSieve fuel max s = Ret l s1 ->
  l = S (length (objs s)) /\ l <> sieve_ref /\ deref s l = None /\
  deref s1 l = Some (take (Z.to_nat max) (sieve s1)) /\
  length (take (Z.to_nat max) (sieve s1)) = Z.to_nat max /\
  (forall b : array, sieve (write_ref l b s1) = sieve s1) /\
  (forall (b : array) (es : list event),
     observe_trace es (write_ref l b s1) = observe_trace (calls_only es) s1).
Proof.
  intros Hmax G. destruct (getSieve_ret _ _ _ _ _ G) as (-> & -> & D).
  pose proof (length_grow (sieve s) max) as Hlen.
  split; [reflexivity|]. split; [discriminate|].
  split; [apply lookup_ge_None_2; lia|].
  split; [rewrite D, slice0_grow by exact Hmax; reflexivity|].
  split.
  { cbn [copied grown set_objs set_sieve sieve]. rewrite length_take. lia. }
  split; [reflexivity|].
  intros b es. rewrite observe_trace_write. apply observe_trace_calls_only.
Qed.

Lemma getSieve_copy_independent_witness :
  1%nat = S (length (objs (node_state (trues 2) []))) /\
  1%nat <> sieve_ref /\ deref (node_state (trues 2) []) 1%nat = None /\
  deref (node_state (trues 2) [trues 2]) 1%nat
  = Some (take (Z.to_nat 2) (sieve (node_state (trues 2) [trues 2]))) /\
  length (take (Z.to_nat 2) (sieve (node_state (trues 2) [trues 2])))
  = Z.to_nat 2 /\
  (forall b : array,
     sieve (write_ref 1%nat b (node_state (trues 2) [trues 2]))
     = sieve (node_state (trues 2) [trues 2])) /\
  (forall (b : array) (es : list event),
     observe_trace es (write_ref 1%nat b (node_state (trues 2) [trues 2]))
     = observe_trace (calls_only es) (node_state (trues 2) [trues 2])).
Proof.
  apply (getSieve_copy_independent 1 2 (node_state (trues 2) [])
           (node_state (trues 2) [trues 2]) 1%nat); [lia | reflexivity].
Defined.

(** A client that writes into its copy between its calls sees what a client
    that writes nothing sees. *)
Example writes_do_not_show :
  observe_trace
    [ECall 1 (CgetSieve 2); EWrite 0 (flags [false; false]);
     ECall 1 (CisPrime 1); EWrite 0 []; ECall 1 (CgetSieve 2)]
    (node_state (trues 2) [])
  = [(SeenArray (Some (trues 2)), Some (trues 2));
     (SeenValue (VBool true), Some (trues 2));
     (SeenArray (Some (trues 2)), Some (trues 2))].
Proof. reflexivity. Qed.

(** Had [getSieve] returned the table itself, the write would show: a write
    through [sieve_ref] changes what [isPrime] returns. *)
Example write_through_sieve_ref_shows :
  observe 1 (CisPrime 1) (node_state (trues 2) []) = SeenValue (VBool true) /\
  observe 1 (CisPrime 1)
    (write_ref sieve_ref (flags [false; false]) (node_state (trues 2) []))
  = SeenValue (VBool false).
Proof. split; reflexivity. Qed.

(** * Further properties of the code *)

(** ** The fill *)

(** X1. The fill [new Array(k).join(',').split(',').map(() => true)] gives
    [k] slots holding [true] for every [k >= 1], and one such slot for
    [k = 0]. *)
Theorem freshSieve_fill (k : nat) :
  freshSieve k = replicate (Nat.max k 1) true_slot.
Proof.
  destruct k as [|k]; [reflexivity|].
  rewrite freshSieve_replicate by lia.
  replace (Nat.max (S k) 1) with (S k) by lia. reflexivity.
Qed.

(** ** getSieve: the ways a call ends *)

(** X4. Entered under a host that binds [length] to a number, the sieve
    loop never ends in two cases: when [length] is positive and slot 0 of
    the table is truthy, for the inner loop steps by [prime = 0], so that
    [multiple] stays 0; and when [length] is [>= 0] and [i] is bound, for
    the update is [i++], so that [prime] stays 0 and the guard stays true. *)
Theorem sieve_loop_runs_forever (fuel ifuel : nat) (len : Z) (s : state) :
  g_length s = Some len ->
  (0 < len /\ truthy (get (sieve s) 0) = true) \/
  (0 <= len /\ exists i, g_i s = Some i) ->
  sieve_loop fuel ifuel 0 s = Timeout.
Proof.
  intros Hl [[Hpos Ht]|[Hle [i Hi]]].
  - destruct fuel as [|f]; [reflexivity|].
    rewrite sieve_loop_S, Hl.
    destruct (Z.leb_spec 0 len); [|lia].
    rewrite Ht. change (0 * 0) with 0.
    rewrite (mark_multiples_diverges ifuel s len Hl Hpos). reflexivity.
  - exact (sieve_loop_diverges fuel ifuel s len i Hl Hle Hi).
Qed.

Lemma sieve_loop_runs_forever_witness :
  sieve_loop 50 50 0 (mkState (trues 3) [] (Some 3) None None) = Timeout.
Proof.
  apply (sieve_loop_runs_forever 50 50 3
           (mkState (trues 3) [] (Some 3) None None)); [reflexivity|].
  left. split; [lia | reflexivity].
Defined.

(** X5. After a call [getSieve(max)], [max >= 0], that has returned or has
    thrown a [ReferenceError], the one error of the sieve loop, the same
    call returns with any fuel: by then the table has [max] slots, and the
    call hands out a fresh array holding the first [max] of them and leaves
    the table as it is. *)
Theorem getSieve_retry_returns
    (fuel fuel' : nat) (max : Z) (s s1 : state) :
  0 <= max ->
  (exists l, getSieve fuel max s = Ret l s1) \/
  (exists x, getSieve fuel max s = Throw (ReferenceError x) s1) ->
  getSieve fuel' max s1
  = Ret (S (length (objs s1)))
        (set_objs (objs s1 ++ [take (Z.to_nat max) (sieve s1)]) s1)
  /\ length (take (Z.to_nat max) (sieve s1)) = Z.to_nat max.
Proof.
  intros Hmax Hend.
  assert (Hfinal : final (getSieve fuel max s) = Some s1).
  { destruct Hend as [[l ->]|[x ->]]; reflexivity. }
  assert (Hlen : max <= Z.of_nat (length (sieve s1))).
  { pose proof (length_grow (sieve s) max) as Hg.
    destruct (getSieve_end_spec fuel max s); cbn in Hfinal; try discriminate;
      injection Hfinal as <-; cbn [grown copied set_sieve set_objs sieve]; lia. }
  split.
  - rewrite getSieve_known by exact Hlen. unfold copied, slice0.
    destruct (Z.ltb_spec max 0); [lia | reflexivity].
  - rewrite length_take. lia.
Qed.

Lemma getSieve_retry_returns_witness :
  getSieve 7 2 (node_state (trues 2) [])
  = Ret (S (length (objs (node_state (trues 2) []))))
        (set_objs (objs (node_state (trues 2) []) ++
                   [take (Z.to_nat 2) (sieve (node_state (trues 2) []))])
           (node_state (trues 2) []))
  /\ length (take (Z.to_nat 2) (sieve (node_state (trues 2) []))) = Z.to_nat 2.
Proof.
  apply (getSieve_retry_returns 1 7 2 node_init (node_state (trues 2) []));
    [lia|].
  right. exists "length"%string. reflexivity.
Defined.

(** X6. For a negative [max], [getSieve(max)] throws nothing and grows
    nothing: it hands out the table without its last [-max] slots (the empty
    array when the table has no more than that). *)
Theorem getSieve_negative (fuel : nat) (max : Z) (s : state) :
  max < 0 ->
  getSieve fuel max s
  = Ret (S (length (objs s)))
        (set_objs
           (objs s ++
            [take (length (sieve s) - Z.to_nat (- max))%nat (sieve s)]) s).
Proof.
  intros Hneg. rewrite getSieve_known by lia. unfold copied, slice0.
  destruct (Z.ltb_spec max 0); [|lia].
  replace (Z.to_nat (Z.of_nat (length (sieve s)) + max))
    with (length (sieve s) - Z.to_nat (- max))%nat by lia.
  reflexivity.
Qed.

Lemma getSieve_negative_witness :
  getSieve 1 (-1) (node_state (trues 3) [])
  = Ret 1%nat (node_state (trues 3) [trues 2]).
Proof. apply (getSieve_negative 1 (-1) (node_state (trues 3) [])). lia. Defined.

(** ** isPrime and nearestPrime on the tables the module builds *)

Lemma get_all_true (n : nat) (k : Z) :
  get (replicate n true_slot) k
  = if (0 <=? k) && (k <? Z.of_nat n) then VBool true else VUndef.
Proof.
  unfold get. destruct (Z.ltb_spec k 0) as [Hk|Hk].
  - destruct (Z.leb_spec 0 k); [lia | reflexivity].
  - destruct (Z.leb_spec 0 k); [|lia]. cbn [andb].
    destruct (Z.ltb_spec k (Z.of_nat n)).
    + rewrite lookup_replicate_2 by lia. reflexivity.
    + rewrite lookup_ge_None_2; [reflexivity|]. rewrite length_replicate. lia.
Qed.

Lemma get_at_length (a : array) (n : Z) :
  n = Z.of_nat (length a) -> get a n = VUndef.
Proof. intros ->. apply get_end. Qed.

(** X7. In every state reachable through the operations, [isPrime] never
    returns [false]: when it returns, it returns [true] for an index the
    table has and [undefined] for every other argument. *)
Theorem isPrime_reachable_never_false
    (fuel : nat) (num : Z) (s s' : state) (v : value) :
  reachable s -> isPrime fuel num s = Ret v s' ->
  (0 <= num < Z.of_nat (length (sieve s)) -> v = VBool true) /\
  (~ 0 <= num < Z.of_nat (length (sieve s)) -> v = VUndef).
Proof.
  intros Hr H. pose proof (reachable_all_true s Hr) as Hall.
  destruct (isPrime_end_spec fuel num s) as [Hk| | |Hlt]; try discriminate;
    injection H as <- _.
  - assert (Hg : get (sieve s) num
                 = if (0 <=? num) && (num <? Z.of_nat (length (sieve s)))
                   then VBool true else VUndef).
    { rewrite Hall at 1. apply get_all_true. }
    rewrite Hg. split; intros Hin.
    + destruct (Z.leb_spec 0 num); [|lia].
      destruct (Z.ltb_spec num (Z.of_nat (length (sieve s)))); [|lia].
      reflexivity.
    + destruct (Z.leb_spec 0 num); [|reflexivity].
      destruct (Z.ltb_spec num (Z.of_nat (length (sieve s)))); [lia|].
      reflexivity.
  - split; [lia | reflexivity].
Qed.

Lemma isPrime_reachable_never_false_witness :
  (0 <= 4 < Z.of_nat (length (sieve (node_state (trues 5) []))) ->
   VBool true = VBool true) /\
  (~ 0 <= 4 < Z.of_nat (length (sieve (node_state (trues 5) []))) ->
   VBool true = VUndef).
Proof.
  apply (isPrime_reachable_never_false 1 4 (node_state (trues 5) [])
           (node_state (trues 5) []) (VBool true)); [|reflexivity].
  exists None, None, None.
  apply (steps_next _ (init None None None)); [apply steps_refl|].
  apply (step_call 1 (CgetSieve 5)). reflexivity.
Defined.

Lemma scan_up_stays fuel ifuel max n s :
  n <= Z.of_nat (length (sieve s)) ->
  loose_eq_false (get (sieve s) n) = false ->
  scan_up (S fuel) ifuel max n s = Ret n s.
Proof.
  intros Hn Hf. cbn [scan_up]. destruct (lt_num (Fin n) max); [|reflexivity].
  unfold bind. rewrite isPrime_known by exact Hn. rewrite Hf. reflexivity.
Qed.

Lemma scan_down_stays fuel ifuel min n s :
  n <= Z.of_nat (length (sieve s)) ->
  loose_eq_false (get (sieve s) n) = false ->
  scan_down (S fuel) ifuel min n s = Ret n s.
Proof.
  intros Hn Hf. cbn [scan_down]. destruct (gt_num (Fin n) min); [|reflexivity].
  unfold bind. rewrite isPrime_known by exact Hn. rewrite Hf. reflexivity.
Qed.

Lemma choose_same n (b1 b2 : bool) :
  choose (Fin n) (Fin n)
    (let p1 := if b1 then NaN else Fin n in if b2 then NaN else p1)
  = if n =? 0 then NaN else Fin n.
Proof.
  unfold choose, gt_num. cbn.
  destruct b1, b2; cbn; destruct (Z.eqb_spec n 0) as [->|Hn]; cbn;
    try reflexivity.
  all: rewrite Z.sub_diag, Z.ltb_irrefl; reflexivity.
Qed.

(** When the slot of [num] is not [false], both scans stop where they start
    and [nearestPrime] gives [num] back. *)
Lemma nearestPrime_no_scan fuel num min max s p s1 :
  isPrime fuel num s = Ret p s1 ->
  loose_eq_false (get (sieve s1) num) = false ->
  nearestPrime fuel num min max s = Timeout \/
  nearestPrime fuel num min max s
  = Ret (if truthy p then Fin num else if num =? 0 then NaN else Fin num) s1.
Proof.
  intros Hp Hf. pose proof (isPrime_ret_covers _ _ _ _ _ Hp) as Hcov.
  rewrite nearestPrime_unfold, Hp.
  destruct (truthy p); [right; reflexivity|].
  destruct fuel as [|f]; [left; reflexivity|]. right.
  rewrite scan_up_stays, scan_down_stays by assumption.
  cbv zeta. f_equal.
  exact (choose_same num (gt_num (Fin num) max)
           (lt_num (if gt_num (Fin num) max then NaN else Fin num) min)).
Qed.

(** X8. In every state reachable through the operations, [nearestPrime]
    finds no neighbour: when it returns, it returns its own argument [num],
    for all bounds, or [NaN] when [num] is 0. *)
Theorem nearestPrime_reachable_returns_argument
    (fuel : nat) (num : Z) (min max : number) (s s' : state) (r : number) :
  reachable s -> nearestPrime fuel num min max s = Ret r s' ->
  r = Fin num \/ (num = 0 /\ r = NaN).
Proof.
  intros Hr H. pose proof (reachable_all_true s Hr) as Hall.
  assert (Hnf : forall p s1, isPrime fuel num s = Ret p s1 ->
                             loose_eq_false (get (sieve s1) num) = false).
  { intros p s1 Hp.
    destruct (isPrime_end_spec fuel num s) as [Hk| | |Hlt]; try discriminate;
      injection Hp as _ <-.
    - rewrite Hall, get_all_true. destruct (_ && _); reflexivity.
    - assert (Hn : num = Z.of_nat (length (sieve (copied num (grown num s))))).
      { pose proof (length_grow (sieve s) num).
        cbn [copied grown set_objs set_sieve sieve]. lia. }
      rewrite get_at_length by exact Hn. reflexivity. }
  destruct (isPrime fuel num s) as [p s1|e s1|] eqn:Hp.
  - destruct (nearestPrime_no_scan fuel num min max s p s1 Hp (Hnf p s1 eq_refl))
      as [HT|HR]; rewrite H in *; [discriminate|].
    injection HR as -> _.
    destruct (truthy p); [left; reflexivity|].
    destruct (Z.eqb_spec num 0); [right; split; [assumption | reflexivity]|].
    left. reflexivity.
  - rewrite nearestPrime_unfold, Hp in H. discriminate.
  - rewrite nearestPrime_unfold, Hp in H. discriminate.
Qed.

Lemma nearestPrime_reachable_returns_argument_witness :
  Fin 4 = Fin 4 \/ (4 = 0 /\ Fin 4 = NaN).
Proof.
  apply (nearestPrime_reachable_returns_argument 1 4 NegInf PosInf
           (node_state (trues 5) []) (node_state (trues 5) []) (Fin 4));
    [|reflexivity].
  exists None, None, None.
  apply (steps_next _ (init None None None)); [apply steps_refl|].
  apply (step_call 1 (CgetSieve 5)). reflexivity.
Defined.

(** ** nearestPrime: bounds and the choice between the candidates *)

Lemma scan_up_ge fuel ifuel max n s nx s' :
  scan_up fuel ifuel max n s = Ret nx s' -> n <= nx.
Proof.
  revert n s. induction fuel as [|f IH]; intros n s H; [discriminate|].
  cbn [scan_up] in H. destruct (lt_num (Fin n) max).
  - unfold bind in H. destruct (isPrime ifuel n s) as [p s1| |];
      try discriminate.
    destruct (loose_eq_false p).
    + apply IH in H. lia.
    + injection H as <- _. lia.
  - injection H as <- _. lia.
Qed.

Lemma scan_down_le fuel ifuel min n s pv s' :
  scan_down fuel ifuel min n s = Ret pv s' -> pv <= n.
Proof.
  revert n s. induction fuel as [|f IH]; intros n s H; [discriminate|].
  cbn [scan_down] in H. destruct (gt_num (Fin n) min).
  - unfold bind in H. destruct (isPrime ifuel n s) as [p s1| |];
      try discriminate.
    destruct (loose_eq_false p).
    + apply IH in H. lia.
    + injection H as <- _. lia.
  - injection H as <- _. lia.
Qed.

Lemma gt_num_succ n max :
  lt_num (Fin n) max = true -> gt_num (Fin (n + 1)) max = false.
Proof.
  unfold gt_num. destruct max as [m| | |]; cbn; try discriminate;
    [|reflexivity].
  intros H. apply Z.ltb_lt in H. apply Z.ltb_ge. lia.
Qed.

Lemma lt_num_pred n min :
  gt_num (Fin n) min = true -> lt_num (Fin (n - 1)) min = false.
Proof.
  unfold gt_num. destruct min as [m| | |]; cbn; try discriminate;
    [|reflexivity].
  intros H. apply Z.ltb_lt in H. apply Z.ltb_ge. lia.
Qed.

Lemma scan_up_below_max fuel ifuel max n s nx s' :
  gt_num (Fin n) max = false ->
  scan_up fuel ifuel max n s = Ret nx s' -> gt_num (Fin nx) max = false.
Proof.
  revert n s. induction fuel as [|f IH]; intros n s Hn H; [discriminate|].
  cbn [scan_up] in H. destruct (lt_num (Fin n) max) eqn:L.
  - unfold bind in H. destruct (isPrime ifuel n s) as [p s1| |];
      try discriminate.
    destruct (loose_eq_false p).
    + exact (IH (n + 1) s1 (gt_num_succ n max L) H).
    + injection H as <- _. exact Hn.
  - injection H as <- _. exact Hn.
Qed.

Lemma scan_down_above_min fuel ifuel min n s pv s' :
  lt_num (Fin n) min = false ->
  scan_down fuel ifuel min n s = Ret pv s' -> lt_num (Fin pv) min = false.
Proof.
  revert n s. induction fuel as [|f IH]; intros n s Hn H; [discriminate|].
  cbn [scan_down] in H. destruct (gt_num (Fin n) min) eqn:L.
  - unfold bind in H. destruct (isPrime ifuel n s) as [p s1| |];
      try discriminate.
    destruct (loose_eq_false p).
    + exact (IH (n - 1) s1 (lt_num_pred n min L) H).
    + injection H as <- _. exact Hn.
  - injection H as <- _. exact Hn.
Qed.

Lemma lt_num_mono a b min :
  a <= b -> lt_num (Fin a) min = false -> lt_num (Fin b) min = false.
Proof.
  destruct min as [m| | |]; cbn; try reflexivity; try discriminate.
  intros Hab H. apply Z.ltb_ge in H. apply Z.ltb_ge. lia.
Qed.

Lemma gt_num_mono a b max :
  a <= b -> gt_num (Fin b) max = false -> gt_num (Fin a) max = false.
Proof.
  unfold gt_num. destruct max as [m| | |]; cbn; try reflexivity;
    try discriminate.
  intros Hab H. apply Z.ltb_ge in H. apply Z.ltb_ge. lia.
Qed.

Lemma choose_cases n nx pv :
  choose n nx pv = nx \/ choose n nx pv = pv \/ choose n nx pv = NaN.
Proof.
  unfold choose.
  destruct (truthy_num pv && negb (truthy_num nx)); [tauto|].
  destruct (truthy_num nx && negb (truthy_num pv)); [tauto|].
  destruct (negb (truthy_num nx) && negb (truthy_num pv)); [tauto|].
  destruct (gt_num _ _); tauto.
Qed.

(** X9. When [num] lies within the bounds, so does every number that
    [nearestPrime(num, min, max)] returns; the only other result is [NaN]. *)
Theorem nearestPrime_within_bounds
    (fuel : nat) (num : Z) (min max : number) (s s' : state) (r : number) :
  within min max num ->
  nearestPrime fuel num min max s = Ret r s' ->
  r = NaN \/ exists z, r = Fin z /\ within min max z.
Proof.
  intros [Hmin Hmax] H. rewrite nearestPrime_unfold in H.
  destruct (isPrime fuel num s) as [p s1| |]; try discriminate.
  destruct (truthy p).
  { injection H as <- _. right. exists num. split; [reflexivity|].
    split; assumption. }
  destruct (scan_up fuel fuel max num s1) as [nx s2| |] eqn:Hup;
    try discriminate.
  destruct (scan_down fuel fuel min num s2) as [pv s3| |] eqn:Hdown;
    try discriminate.
  injection H as <- _. cbv zeta.
  pose proof (scan_up_ge _ _ _ _ _ _ _ Hup) as Hge.
  pose proof (scan_down_le _ _ _ _ _ _ _ Hdown) as Hle.
  pose proof (scan_up_below_max _ _ _ _ _ _ _ Hmax Hup) as Hnx.
  pose proof (scan_down_above_min _ _ _ _ _ _ _ Hmin Hdown) as Hpv.
  rewrite Hnx, Hpv.
  destruct (choose_cases (Fin num) (Fin nx) (Fin pv)) as [->|[->| ->]].
  - right. exists nx. split; [reflexivity|]. split; [|exact Hnx].
    exact (lt_num_mono num nx min Hge Hmin).
  - right. exists pv. split; [reflexivity|]. split; [exact Hpv|].
    exact (gt_num_mono pv num max Hle Hmax).
  - left. reflexivity.
Qed.

Lemma nearestPrime_within_bounds_witness :
  Fin 7 = NaN \/ exists z, Fin 7 = Fin z /\ within (Fin 5) (Fin 10) z.
Proof.
  apply (nearestPrime_within_bounds 12 10 (Fin 5) (Fin 10) sieved13 sieved13
           (Fin 7)); [split; reflexivity | reflexivity].
Defined.

Lemma choose_truthy n nx pv :
  truthy_num nx = true -> truthy_num (choose n nx pv) = true.
Proof.
  intros Hnx. unfold choose. rewrite Hnx. cbn [negb andb].
  destruct (truthy_num pv) eqn:Hpv; cbn [negb andb]; [|exact Hnx].
  destruct (gt_num _ _); assumption.
Qed.

(** X10. For a positive [num], [nearestPrime(num, min, max)] never returns
    [NaN], in any state and for any bounds: the upward candidate is then a
    positive number, which the return expression never takes for a missing
    one. *)
Theorem nearestPrime_positive_never_NaN
    (fuel : nat) (num : Z) (min max : number) (s : state) :
  0 < num -> returns_NaN (nearestPrime fuel num min max s) = false.
Proof.
  intros Hpos. rewrite nearestPrime_unfold.
  destruct (isPrime fuel num s) as [p s1| |]; try reflexivity.
  destruct (truthy p); [reflexivity|].
  destruct (scan_up fuel fuel max num s1) as [nx s2| |] eqn:Hup;
    try reflexivity.
  destruct (scan_down fuel fuel min num s2) as [pv s3| |]; try reflexivity.
  pose proof (scan_up_ge _ _ _ _ _ _ _ Hup) as Hge.
  cbv zeta. unfold returns_NaN.
  match goal with
  | |- context [choose ?a ?b ?c] =>
      pose proof (choose_truthy a b c) as Ht; destruct (choose a b c)
  end; try reflexivity.
  assert (Hnx : truthy_num (Fin nx) = true).
  { cbn. destruct (Z.eqb_spec nx 0); [lia | reflexivity]. }
  specialize (Ht Hnx). discriminate.
Qed.

Lemma nearestPrime_positive_never_NaN_witness :
  returns_NaN (nearestPrime 12 9 (Fin 8) (Fin 10) sieved13) = false.
Proof.
  apply (nearestPrime_positive_never_NaN 12 9 (Fin 8) (Fin 10) sieved13). lia.
Defined.

(** ** The arrays handed out *)

Lemma keeps_ret {A} (a : A) : keeps_objs (ret a).
Proof. intros s s' [= <-]. reflexivity. Qed.

Lemma keeps_bind {A B} (m : M A) (f : A -> M B) :
  keeps_objs m -> (forall a, keeps_objs (f a)) -> keeps_objs (bind m f).
Proof.
  intros Hm Hf s s' H. unfold bind in H.
  destruct (m s) as [a s1|e s1|] eqn:E; cbn in H.
  - transitivity (objs s1); [apply Hm; rewrite E; reflexivity|].
    apply (Hf a). exact H.
  - injection H as <-. apply Hm. rewrite E. reflexivity.
  - discriminate.
Qed.

Lemma keeps_alloc {A} (a : A -> state -> array) (x : A) :
  keeps_objs (fun s => alloc (a x s) s).
Proof. intros s s' [= <-]. cbn. apply prefix_app_r. reflexivity. Qed.

Lemma keeps_lookup_global x g : keeps_objs (lookup_global x g).
Proof.
  intros s s' H. unfold lookup_global in H.
  destruct (g s); injection H as <-; reflexivity.
Qed.

Lemma keeps_getSieve fuel max : keeps_objs (getSieve fuel max).
Proof.
  intros s s' H. destruct (getSieve_end_spec fuel max s); cbn in H;
    try discriminate; injection H as <-; cbn.
  - reflexivity.
  - apply prefix_app_r. reflexivity.
Qed.

Lemma keeps_isPrime fuel num : keeps_objs (isPrime fuel num).
Proof.
  intros s s' H. destruct (isPrime_end_spec fuel num s); cbn in H;
    try discriminate; injection H as <-; cbn;
    first [reflexivity | apply prefix_app_r; reflexivity].
Qed.

Lemma keeps_scan_up fuel ifuel max n : keeps_objs (scan_up fuel ifuel max n).
Proof.
  revert n. induction fuel as [|f IH]; intros n; [intros s s' [=]|].
  cbn [scan_up]. destruct (lt_num (Fin n) max); [|apply keeps_ret].
  apply keeps_bind; [apply keeps_isPrime|]. intros p.
  destruct (loose_eq_false p); [apply IH | apply keeps_ret].
Qed.

Lemma keeps_scan_down fuel ifuel min n :
  keeps_objs (scan_down fuel ifuel min n).
Proof.
  revert n. induction fuel as [|f IH]; intros n; [intros s s' [=]|].
  cbn [scan_down]. destruct (gt_num (Fin n) min); [|apply keeps_ret].
  apply keeps_bind; [apply keeps_isPrime|]. intros p.
  destruct (loose_eq_false p); [apply IH | apply keeps_ret].
Qed.

Lemma run_keeps fuel c s s' :
  run fuel c s = Some s' -> objs s `prefix_of` objs s'.
Proof.
  destruct c; cbn [run]; revert s s'.
  - apply keeps_getSieve.
  - apply keeps_bind; [apply keeps_getSieve|]. intros l.
    apply (keeps_alloc (fun l s => js_map _ (deref_or_empty s l))).
  - apply keeps_bind; [apply keeps_lookup_global|]. intros n.
    apply keeps_bind; [apply keeps_getSieve|]. intros l.
    apply keeps_bind.
    + apply (keeps_alloc (fun l s => js_map _ (deref_or_empty s l))).
    + intros m.
      apply (keeps_alloc (fun m s => filter_Boolean (deref_or_empty s m))).
  - apply keeps_isPrime.
  - apply keeps_bind; [apply keeps_isPrime|]. intros p.
    destruct (truthy p); [apply keeps_ret|].
    apply keeps_bind; [apply keeps_scan_up|]. intros nx.
    apply keeps_bind; [apply keeps_scan_down|]. intros pv.
    apply keeps_ret.
Qed.

(** X12. An array that the module has handed out is never changed by the
    module: after any sequence of calls that end, by a return or by a
    throw, it holds the slots it held, however far the table has grown. *)
Theorem handed_out_arrays_stable
    (cs : list (nat * call)) (s s' : state) (k : nat) (a : array) :
  run_all cs s = Some s' ->
  deref s (S k) = Some a -> deref s' (S k) = Some a.
Proof.
  revert s. induction cs as [|[fuel c] r IH]; intros s H D.
  - injection H as <-. exact D.
  - cbn [run_all] in H. destruct (run fuel c s) as [s1|] eqn:E; [|discriminate].
    apply (IH s1 H). cbn [deref] in *.
    exact (prefix_lookup_Some _ _ _ _ D (run_keeps _ _ _ _ E)).
Qed.

Lemma handed_out_arrays_stable_witness :
  deref (node_state (trues 4) [trues 2; trues 3; trues 1]) 1%nat
  = Some (trues 2).
Proof.
  apply (handed_out_arrays_stable
           [(1%nat, CgetSieve 4); (1%nat, CgetSieve 3);
            (1%nat, CnearestPrime 1 NegInf PosInf); (1%nat, CgetSieve 1)]
           (node_state (trues 2) [trues 2])); reflexivity.
Defined.

(** ** listprimes on the tables the module builds *)

Lemma slice0_grow_all_true (a : array) (n : Z) :
  0 <= n -> a = replicate (length a) true_slot ->
  slice0 (grow a n) n = replicate (Z.to_nat n) true_slot.
Proof.
  intros Hn Ha. rewrite slice0_grow by exact Hn. unfold grow.
  rewrite Ha, <- replicate_add, take_replicate. f_equal.
  rewrite length_replicate. lia.
Qed.

(** X13. In a state reachable through the operations, under a host that
    binds [num] to [n >= 0], [listprimes], when it returns, lists every
    integer from 1 to [n - 1], in ascending order, and nothing else: every
    positive index below the bound is given as a prime. *)
Theorem listprimes_reachable_lists_all
    (fuel : nat) (max n : Z) (s s' : state) (l' : loc) :
  reachable s -> g_num s = Some n -> 0 <= n ->
  listprimes fuel max s = Ret l' s' ->
  exists out,
    deref s' l' = Some (map num_slot out) /\
    StronglySorted Z.lt out /\
    forall z, z ∈ out <-> 1 <= z < n.
Proof.
  intros Hr Hn Hpos H. pose proof (reachable_all_true s Hr) as Hall.
  destruct (getSieve fuel n s) as [l s1|e s1|] eqn:G;
    [|rewrite listprimes_unfold, Hn, G in H; discriminate ..].
  destruct (getSieve_ret _ _ _ _ _ G) as (_ & _ & D).
  rewrite (slice0_grow_all_true (sieve s) n Hpos Hall) in D.
  pose proof (listprimes_run fuel max n s l s1 _ Hn G D) as R.
  cbv zeta in R. rewrite R in H. injection H as <- <-.
  exists (listed_from 0 (replicate (Z.to_nat n) true_slot)).
  split; [|split].
  - rewrite <- filter_map_and_index. exact (deref_alloc _ _).
  - apply listed_from_sorted.
  - intros z. rewrite elem_of_listed_from. rewrite length_replicate. split.
    + intros (k & -> & Hk & Hz & _). lia.
    + intros Hz. exists (Z.to_nat z). rewrite Z2Nat.id by lia.
      split; [lia|]. split; [lia|]. split; [lia|].
      rewrite get_all_true.
      destruct (Z.leb_spec 0 z); [|lia].
      destruct (Z.ltb_spec z (Z.of_nat (Z.to_nat n))); [reflexivity | lia].
Qed.

Lemma listprimes_reachable_lists_all_witness :
  exists out,
    deref (mkState (trues 3)
             [trues 3; [num_slot 0; num_slot 1; num_slot 2];
              [num_slot 1; num_slot 2]] None None (Some 3)) 3%nat
    = Some (map num_slot out) /\
    StronglySorted Z.lt out /\
    forall z, z ∈ out <-> 1 <= z < 3.
Proof.
  apply (listprimes_reachable_lists_all 1 20 3
           (mkState (trues 3) [] None None (Some 3))).
  - exists None, None, (Some 3).
    apply (steps_next _ (init None None (Some 3))); [apply steps_refl|].
    apply (step_call 1 (CgetSieve 3)). reflexivity.
  - reflexivity.
  - lia.
  - reflexivity.
Defined.

(** ** Edges of isPrime and nearestPrime, in every state *)

(** X14. For an argument at or beyond the length of the table, [isPrime]
    never returns a boolean: when it returns, it returns [undefined], the
    slot it reads lying one past the end of the table or of the copy. *)
Theorem isPrime_beyond_table_undefined
    (fuel : nat) (num : Z) (s s' : state) (v : value) :
  Z.of_nat (length (sieve s)) <= num ->
  isPrime fuel num s = Ret v s' -> v = VUndef.
Proof.
  intros Hlen H.
  destruct (isPrime_end_spec fuel num s) as [Hk| | |Hlt]; try discriminate;
    injection H as <- _; [|reflexivity].
  apply get_at_length. lia.
Qed.

Lemma isPrime_beyond_table_undefined_witness : VUndef = VUndef.
Proof.
  apply (isPrime_beyond_table_undefined 1 2
           (node_state (flags [false; false]) [])
           (node_state (flags [false; false]) []) VUndef);
    [cbn; lia | reflexivity].
Defined.

(** X15. When the slot of [num] in the table is truthy, [nearestPrime]
    returns [num] at once, with any fuel and whatever the bounds, also when
    [num] lies outside of them; the state is left as it is. *)
Theorem nearestPrime_prime_ignores_bounds
    (fuel : nat) (num : Z) (min max : number) (s : state) :
  num <= Z.of_nat (length (sieve s)) -> truthy (get (sieve s) num) = true ->
  nearestPrime fuel num min max s = Ret (Fin num) s.
Proof.
  intros Hlen Ht. rewrite nearestPrime_unfold, isPrime_known by exact Hlen.
  rewrite Ht. reflexivity.
Qed.

Lemma nearestPrime_prime_ignores_bounds_witness :
  nearestPrime 0 7 (Fin 8) (Fin 10) sieved13 = Ret (Fin 7) sieved13.
Proof.
  apply (nearestPrime_prime_ignores_bounds 0 7 (Fin 8) (Fin 10) sieved13);
    [cbn; lia | reflexivity].
Defined.





(** X17. No call that ends ever overwrites a slot of the table, from
    whatever state it starts: after any sequence of calls that end, the
    table is the old table followed by slots holding [true].  The sieve loop
    marks nothing in a call that ends. *)
Theorem table_never_marked (cs : list (nat * call)) (s s' : state) :
  run_all cs s = Some s' ->
  exists n, sieve s' = sieve s ++ replicate n true_slot.
Proof.
  change (run_all cs s = Some s' -> extends s s').
  revert s. induction cs as [|[fuel c] r IH]; intros s H.
  - injection H as <-. apply extends_refl.
  - cbn [run_all] in H. destruct (run fuel c s) as [s1|] eqn:E; [|discriminate].
    exact (extends_trans _ _ _ (run_extends _ _ _ _ E) (IH s1 H)).
Qed.

Lemma table_never_marked_witness :
  exists n,
    sieve (node_state
             (flags [false; false; true; true] ++ replicate 2 true_slot)
             [flags [false; false; true]])
    = sieve (node_state (flags [false; false; true; true]) []) ++
      replicate n true_slot.
Proof.
  apply (table_never_marked
           [(1%nat, CgetSieve 6); (1%nat, CisPrime 2); (1%nat, CgetSieve 3)]
           (node_state (flags [false; false; true; true]) [])).
  reflexivity.
Defined.
